(** * k8s-service-loader: the pod-table parser and service resolver

    A shallow embedding of src/extension.ts: [getServicesMap] (lines
    237-288) with the JavaScript string, array, [Map] and [RegExp] operations
    it calls, the service listing of [activate] (line 96), the [Spinner]
    class (lines 19-54), [execPromise] (lines 4-16) and the command handler
    of [activate] (lines 64-231), whose prompts, commands and timers are
    answered from outside.

    Conventions of the embedding.
    - A JavaScript string is a [string]; each [ascii] is one UTF-16 code unit
      in the range 0..255.  On such strings the operations below ([trim],
      [split], [startsWith], the default [sort] order, ...) are exact.
    - [undefined] and [null] are [None].
    - An exception is an explicit outcome ([Threw]); the loop stops at the
      first one, as the source does.
    - [new RegExp(source, "g")] is modelled for the pattern syntax
      [^ $ . | ( ) * + ?] over literal characters.  A source that uses a
      backslash escape, a character class, a braced quantifier or a [(?]
      group is outside the modelled syntax: the outcome is [Unmodelled],
      never a guessed value. *)

From Stdlib Require Import Strings.String Strings.Ascii.
From Stdlib Require Import List Arith Bool Lia.
From Stdlib Require Import Sorting.Sorted Sorting.Permutation Sorting.Mergesort.
From Stdlib Require Import Structures.Orders.
Import ListNotations.

Local Open Scope string_scope.
Local Open Scope list_scope.

(** ** Outcomes of a call *)

Inductive js_error : Type :=
| TypeError    (* a method called on [undefined] *)
| SyntaxError. (* an invalid regular expression *)

Inductive outcome (A : Type) : Type :=
| Returned (a : A)
| Threw (e : js_error)
| Unmodelled.

Arguments Returned {A} a.
Arguments Threw {A} e.
Arguments Unmodelled {A}.

Definition bind {A B : Type} (o : outcome A) (k : A -> outcome B) : outcome B :=
  match o with
  | Returned a => k a
  | Threw e => Threw e
  | Unmodelled => Unmodelled
  end.

Notation "x <- o ;; k" := (bind o (fun x => k))
  (at level 61, o at next level, right associativity).

(** ** JavaScript strings and arrays *)

Module JsString.

(** [WhiteSpace] and [LineTerminator] code units below 256: TAB, LF, VT, FF,
    CR, SP and NBSP.  This is the set of [String.prototype.trim] and of the
    [\s] class. *)
Definition is_space (c : ascii) : bool :=
  let n := nat_of_ascii c in
  (((9 <=? n) && (n <=? 13)) || (n =? 32) || (n =? 160))%nat.

(** [LineTerminator] code units below 256: what [.] does not match. *)
Definition is_line_terminator (c : ascii) : bool :=
  let n := nat_of_ascii c in
  ((n =? 10) || (n =? 13))%nat.

Definition LF : ascii := ascii_of_nat 10.
Definition dash : ascii := "-"%char.

Fixpoint trimStart (s : string) : string :=
  match s with
  | EmptyString => EmptyString
  | String c s' => if is_space c then trimStart s' else s
  end.

Fixpoint trimEnd (s : string) : string :=
  match s with
  | EmptyString => EmptyString
  | String c s' =>
      match trimEnd s' with
      | EmptyString => if is_space c then EmptyString else String c EmptyString
      | t => String c t
      end
  end.

(** [s.trim()] *)
Definition trim (s : string) : string := trimEnd (trimStart s).

(** Adds a character in front of the first piece of a split. *)
Definition cons_head (c : ascii) (l : list string) : list string :=
  match l with
  | [] => [String c EmptyString]
  | h :: t => String c h :: t
  end.

(** [s.split(sep)] for a one-character separator string: the pieces between
    the occurrences of [sep]; the empty string gives one empty piece. *)
Fixpoint split (sep : ascii) (s : string) : list string :=
  match s with
  | EmptyString => [EmptyString]
  | String c s' =>
      if Ascii.eqb c sep then EmptyString :: split sep s'
      else cons_head c (split sep s')
  end.

(** [s.split(/\s+/)]: the pieces between the maximal runs of white space.  A
    leading or a trailing run leaves an empty first or last piece.  [gap]
    says that the previous character was white space. *)
Fixpoint split_ws_from (gap : bool) (s : string) : list string :=
  match s with
  | EmptyString => [EmptyString]
  | String c s' =>
      if is_space c then
        if gap then split_ws_from true s'
        else EmptyString :: split_ws_from true s'
      else cons_head c (split_ws_from false s')
  end.

Definition split_ws (s : string) : list string := split_ws_from false s.

(** [a.indexOf(x)]: [None] stands for -1. *)
Fixpoint indexOf (x : string) (a : list string) : option nat :=
  match a with
  | [] => None
  | y :: a' =>
      if String.eqb y x then Some 0
      else option_map S (indexOf x a')
  end.

(** [a[i]] for an index computed by [indexOf]: [undefined] at -1 and past the
    end. *)
Definition at_index (a : list string) (i : option nat) : option string :=
  match i with
  | None => None
  | Some n => nth_error a n
  end.

(** [s.startsWith(p)] *)
Definition startsWith (p s : string) : bool := String.prefix p s.

(** [a.join(sep)] *)
Definition join (sep : string) (a : list string) : string := String.concat sep a.

(** [a.slice(0, -2)] and [a.slice(-2)] *)
Definition slice_init2 (a : list string) : list string :=
  firstn (List.length a - 2) a.
Definition slice_last2 (a : list string) : list string :=
  skipn (List.length a - 2) a.

End JsString.

(** ** Regular expressions

    The patterns of the source: the literal [/^(dev-|qa-|stg-)/] and the
    pattern built at run time from the namespace,
    [new RegExp(`^${namespaceColumn}-`, "g")].  The matcher follows the
    backtracking semantics of ECMAScript (ECMA-262, 22.2.2): a matcher takes
    a state and a continuation, alternatives are tried left to right, a
    quantifier is greedy unless followed by [?], and an iteration of a
    quantifier that consumes nothing is rejected once the minimum is met.
    Captures are not recorded: no pattern here refers back to one, and both
    replacements are the empty string. *)

Module JsRegExp.

Import JsString.

Inductive regex : Type :=
| Eps                       (* the empty alternative *)
| Chr (c : ascii)           (* a pattern character *)
| Any                       (* [.] *)
| Bol                       (* [^], no multiline flag *)
| Eol                       (* [$], no multiline flag *)
| Seq (r1 r2 : regex)
| Alt (r1 r2 : regex)       (* [r1|r2] *)
| Group (r : regex)         (* [(r)] *)
| Repeat (min : nat) (max : option nat) (greedy : bool) (r : regex).

(** *** Matching *)

(** A match state: the end index and the input from there on. *)
Definition state : Type := (nat * string)%type.

(** [RepeatMatcher] for the matcher [m] of the quantified atom.  Every
    further call either lowers [min] or starts further in the input, which
    bounds their number; [fuel] counts them. *)
Fixpoint repeat_matcher (m : state -> (state -> option state) -> option state)
  (fuel min : nat) (max : option nat) (greedy : bool) (x : state)
  (c : state -> option state) {struct fuel} : option state :=
  match fuel with
  | 0 => None
  | S fuel' =>
      match max with
      | Some 0 => c x
      | _ =>
          let d := fun y : state =>
            if ((min =? 0) && (fst y =? fst x))%nat then None
            else repeat_matcher m fuel' (pred min) (option_map pred max)
                   greedy y c in
          if (0 <? min)%nat then m x d
          else if greedy then
            match m x d with
            | Some z => Some z
            | None => c x
            end
          else
            match c x with
            | Some z => Some z
            | None => m x d
            end
      end
  end.

Fixpoint run (r : regex) (x : state) (c : state -> option state) {struct r}
  : option state :=
  match r with
  | Eps => c x
  | Chr a =>
      match snd x with
      | String b t => if Ascii.eqb a b then c (S (fst x), t) else None
      | EmptyString => None
      end
  | Any =>
      match snd x with
      | String b t => if is_line_terminator b then None else c (S (fst x), t)
      | EmptyString => None
      end
  | Bol => if (fst x =? 0)%nat then c x else None
  | Eol => match snd x with EmptyString => c x | String _ _ => None end
  | Seq r1 r2 => run r1 x (fun y => run r2 y c)
  | Alt r1 r2 =>
      match run r1 x c with
      | Some z => Some z
      | None => run r2 x c
      end
  | Group r1 => run r1 x c
  | Repeat min max greedy r1 =>
      repeat_matcher (run r1) (S (min + String.length (snd x))) min max
        greedy x c
  end.

(** One attempt at the current index, as [RegExpBuiltinExec] makes it. *)
Definition match_at (r : regex) (x : state) : option state := run r x Some.

Definition emit_and_advance (x : state) (k : state -> string) : string :=
  match snd x with
  | EmptyString => EmptyString
  | String b t => String b (k (S (fst x), t))
  end.

(** [s.replace(re, "")] for a global [re]: every match found from index 0 on
    is removed; after an empty match the search resumes one index later. *)
Fixpoint replace_all_from (fuel : nat) (r : regex) (x : state) : string :=
  match fuel with
  | 0 => snd x
  | S fuel' =>
      match match_at r x with
      | Some y =>
          if (fst y =? fst x)%nat
          then emit_and_advance x (replace_all_from fuel' r)
          else replace_all_from fuel' r y
      | None => emit_and_advance x (replace_all_from fuel' r)
      end
  end.

Definition replace_all (r : regex) (s : string) : string :=
  replace_all_from (S (String.length s)) r (0, s).

(** [s.replace(re, "")] for a [re] without the global flag: the first match
    is removed. *)
Fixpoint replace_first_from (r : regex) (pos : nat) (s : string) : string :=
  match match_at r (pos, s) with
  | Some y => snd y
  | None =>
      match s with
      | EmptyString => EmptyString
      | String b t => String b (replace_first_from r (S pos) t)
      end
  end.

Definition replace_first (r : regex) (s : string) : string :=
  replace_first_from r 0 s.

(** *** Parsing a pattern source *)

Inductive compiled : Type :=
| Pattern (r : regex)
| Invalid            (* the constructor throws a SyntaxError *)
| Unsupported.       (* syntax outside the modelled patterns *)

(** What a quantifier character would apply to. *)
Inductive pending : Type :=
| NoAtom        (* nothing to repeat *)
| Atom          (* an atom without quantifier *)
| Quantified.   (* an atom with a greedy quantifier: [?] makes it lazy *)

(** A group being read: the alternatives already closed (latest first), the
    terms of the current alternative (latest first). *)
Record frame : Type := mkFrame {
  alts : list regex;
  terms : list regex;
  last : pending
}.

Definition empty_frame : frame := mkFrame [] [] NoAtom.

(** The terms [t1 .. tn] of an alternative, given latest first. *)
Definition seq_of (rev_terms : list regex) : regex :=
  fold_left (fun acc t => Seq t acc) rev_terms Eps.

(** The alternatives [a1 | .. | an], given latest first, [an] apart. *)
Definition alt_of (rev_alts : list regex) (an : regex) : regex :=
  fold_left (fun acc a => Alt a acc) rev_alts an.

Definition close_frame (f : frame) : regex :=
  alt_of (alts f) (seq_of (terms f)).

Definition push_term (t : regex) (p : pending) (f : frame) : frame :=
  mkFrame (alts f) (t :: terms f) p.

Definition quantify (min : nat) (max : option nat) (f : frame) : option frame :=
  match last f, terms f with
  | Atom, t :: ts => Some (mkFrame (alts f) (Repeat min max true t :: ts) Quantified)
  | _, _ => None
  end.

Definition make_lazy (f : frame) : option frame :=
  match last f, terms f with
  | Quantified, Repeat min max _ t :: ts =>
      Some (mkFrame (alts f) (Repeat min max false t :: ts) NoAtom)
  | _, _ => None
  end.

Definition is_digit (c : ascii) : bool :=
  let n := nat_of_ascii c in ((48 <=? n) && (n <=? 57))%nat.

Fixpoint skip_digits (s : string) : string :=
  match s with
  | String c s' => if is_digit c then skip_digits s' else s
  | EmptyString => EmptyString
  end.

(** Does [s] (what follows a left brace) complete a quantifier [{n}], [{n,}]
    or [{n,m}]?  If not, the brace is a pattern character. *)
Definition closes_braced_quantifier (s : string) : bool :=
  match s with
  | String c _ =>
      is_digit c &&
      match skip_digits s with
      | String "}" _ => true
      | String "," (String "}" _) => true
      | String "," (String d s2) =>
          is_digit d &&
          match skip_digits s2 with
          | String "}" _ => true
          | _ => false
          end
      | _ => false
      end
  | EmptyString => false
  end.

Fixpoint parse_from (s : string) (cur : frame) (outer : list frame) : compiled :=
  match s with
  | EmptyString =>
      match outer with
      | [] => Pattern (close_frame cur)
      | _ :: _ => Invalid                       (* unterminated group *)
      end
  | String c s' =>
      match c with
      | "("%char =>
          match s' with
          | String "?" _ => Unsupported
          | _ => parse_from s' empty_frame (cur :: outer)
          end
      | ")"%char =>
          match outer with
          | [] => Invalid                       (* unmatched parenthesis *)
          | f :: outer' =>
              parse_from s' (push_term (Group (close_frame cur)) Atom f) outer'
          end
      | "|"%char =>
          parse_from s'
            (mkFrame (seq_of (terms cur) :: alts cur) [] NoAtom) outer
      | "*"%char =>
          match quantify 0 None cur with
          | Some f => parse_from s' f outer
          | None => Invalid                     (* nothing to repeat *)
          end
      | "+"%char =>
          match quantify 1 None cur with
          | Some f => parse_from s' f outer
          | None => Invalid
          end
      | "?"%char =>
          match quantify 0 (Some 1) cur with
          | Some f => parse_from s' f outer
          | None =>
              match make_lazy cur with
              | Some f => parse_from s' f outer
              | None => Invalid
              end
          end
      | "^"%char => parse_from s' (push_term Bol NoAtom cur) outer
      | "$"%char => parse_from s' (push_term Eol NoAtom cur) outer
      | "."%char => parse_from s' (push_term Any Atom cur) outer
      | "\"%char => Unsupported
      | "["%char => Unsupported
      | "{"%char =>
          if closes_braced_quantifier s' then Unsupported
          else parse_from s' (push_term (Chr c) Atom cur) outer
      | _ => parse_from s' (push_term (Chr c) Atom cur) outer
      end
  end.

(** [new RegExp(source, flags)]; the flags decide which replace is used. *)
Definition RegExp (source : string) : compiled :=
  parse_from source empty_frame [].

End JsRegExp.

(** ** The services map *)

Import JsString JsRegExp.

(** [envPrefix]: one of the three property names ["dev"], ["qa"], ["stg"]. *)
Inductive env : Type := dev | qa | stg.

Definition env_eqb (a b : env) : bool :=
  match a, b with
  | dev, dev | qa, qa | stg, stg => true
  | _, _ => false
  end.

(** [{ id: serviceId, namespace: namespaceColumn }]; the namespace is
    [undefined] when no namespace was passed and the line has no cell under
    NAMESPACE. *)
Record service_details : Type := mkDetails {
  id : string;
  namespace : option string
}.

(** The object stored under a service name: created as [{}], then given
    properties named by [envPrefix]. *)
Record environments : Type := mkEnvs {
  at_dev : option service_details;
  at_qa : option service_details;
  at_stg : option service_details
}.

Definition no_environments : environments := mkEnvs None None None.

Definition get_env (e : env) (o : environments) : option service_details :=
  match e with
  | dev => at_dev o
  | qa => at_qa o
  | stg => at_stg o
  end.

(** [o[e] = d] *)
Definition set_env (e : env) (d : service_details) (o : environments)
  : environments :=
  match e with
  | dev => mkEnvs (Some d) (at_qa o) (at_stg o)
  | qa => mkEnvs (at_dev o) (Some d) (at_stg o)
  | stg => mkEnvs (at_dev o) (at_qa o) (Some d)
  end.

(** A JavaScript [Map] from service names: the entries in insertion order. *)
Definition services_map : Type := list (string * environments).

Fixpoint map_get (k : string) (m : services_map) : option environments :=
  match m with
  | [] => None
  | (k', v) :: m' => if String.eqb k' k then Some v else map_get k m'
  end.

Definition map_has (k : string) (m : services_map) : bool :=
  match map_get k m with
  | Some _ => true
  | None => false
  end.

(** [m.set(k, v)]: a present key keeps its place, a new one goes last. *)
Fixpoint map_set (k : string) (v : environments) (m : services_map)
  : services_map :=
  match m with
  | [] => [(k, v)]
  | (k', v') :: m' =>
      if String.eqb k' k then (k, v) :: m'
      else (k', v') :: map_set k v m'
  end.

(** [Array.from(m.keys())] *)
Definition map_keys (m : services_map) : list string := map fst m.

(** [m.get(k)[e] = d]: the object stored under [k] is updated in place.  The
    source calls it only after making sure that [k] is present. *)
Fixpoint assign_env (k : string) (e : env) (d : service_details)
  (m : services_map) : services_map :=
  match m with
  | [] => []
  | (k', v) :: m' =>
      if String.eqb k' k then (k', set_env e d v) :: m'
      else (k', v) :: assign_env k e d m'
  end.

(** [servicesMap.get(selectedService)?.[environment]] (line 130). *)
Definition lookup (m : services_map) (k : string) (e : env)
  : option service_details :=
  match map_get k m with
  | Some o => get_env e o
  | None => None
  end.

(** ** [getServicesMap] *)

(** Lines 252-261: the chain of [startsWith] tests. *)
Definition env_prefix (nameColumn : string) : option env :=
  if startsWith "dev-" nameColumn then Some dev
  else if startsWith "qa-" nameColumn then Some qa
  else if startsWith "stg-" nameColumn then Some stg
  else None.

Fixpoint literal (s : string) : regex :=
  match s with
  | EmptyString => Eps
  | String c s' => Seq (Chr c) (literal s')
  end.

(** [/^(dev-|qa-|stg-)/] *)
Definition env_prefix_re : regex :=
  Seq Bol
    (Seq (Group (Alt (literal "dev-") (Alt (literal "qa-") (literal "stg-"))))
       Eps).

(** Lines 266-271: the namespace part is removed when [namespaceColumn] is
    truthy, that is neither [undefined] nor the empty string. *)
Definition strip_namespace (namespaceColumn : option string)
  (modifiedName : string) : outcome string :=
  match namespaceColumn with
  | None => Returned modifiedName
  | Some EmptyString => Returned modifiedName
  | Some ns =>
      match RegExp ("^" ++ ns ++ "-") with
      | Pattern re => Returned (replace_all re modifiedName)
      | Invalid => Threw SyntaxError
      | Unsupported => Unmodelled
      end
  end.

(** Lines 274-285, with the catalog update. *)
Definition record_service (envPrefix : env) (namespaceColumn : option string)
  (modifiedName : string) (servicesMap : services_map) : services_map :=
  let parts := split dash modifiedName in
  if (2 <? List.length parts)%nat then
    let serviceName := join "-" (slice_init2 parts) in
    let serviceId := join "-" (slice_last2 parts) in
    let servicesMap1 :=
      if negb (map_has serviceName servicesMap)
      then map_set serviceName no_environments servicesMap
      else servicesMap in
    assign_env serviceName envPrefix (mkDetails serviceId namespaceColumn)
      servicesMap1
  else servicesMap.

(** [namespace ?? columns[namespaceIndex]] (line 248). *)
Definition namespace_column (namespace : option string)
  (namespaceIndex : option nat) (columns : list string) : option string :=
  match namespace with
  | Some n => Some n
  | None => at_index columns namespaceIndex
  end.

(** The body of the loop for one line (lines 247-285). *)
Definition process_line (namespaceIndex nameIndex : option nat)
  (namespace : option string) (servicesMap : services_map) (line : string)
  : outcome services_map :=
  let columns := split_ws line in
  let namespaceColumn := namespace_column namespace namespaceIndex columns in
  match at_index columns nameIndex with
  | None => Threw TypeError          (* [undefined.startsWith] *)
  | Some nameColumn =>
      match env_prefix nameColumn with
      | None => Returned servicesMap (* [continue] *)
      | Some envPrefix =>
          modifiedName <-
            strip_namespace namespaceColumn
              (replace_first env_prefix_re nameColumn) ;;
          Returned (record_service envPrefix namespaceColumn modifiedName
                      servicesMap)
      end
  end.

(** The loop over [lines[1..]]: it stops at the first exception. *)
Fixpoint process_lines (namespaceIndex nameIndex : option nat)
  (namespace : option string) (servicesMap : services_map)
  (lines : list string) : outcome services_map :=
  match lines with
  | [] => Returned servicesMap
  | line :: lines' =>
      servicesMap' <-
        process_line namespaceIndex nameIndex namespace servicesMap line ;;
      process_lines namespaceIndex nameIndex namespace servicesMap' lines'
  end.

Definition getServicesMap (podsData : string) (namespace : option string)
  : outcome services_map :=
  let lines := split LF (trim podsData) in
  let headers := split_ws (hd EmptyString lines) in
  let namespaceIndex := indexOf "NAMESPACE" headers in
  let nameIndex := indexOf "NAME" headers in
  process_lines namespaceIndex nameIndex namespace [] (tl lines).

(** ** The sorted service list of [activate] (line 96) *)

(** The default order of [Array.prototype.sort]: strings compared code unit
    by code unit. *)
Module CodeUnitOrder <: TotalLeBool.
Definition t := string.
Definition leb (a b : string) : bool := String.leb a b.
Lemma leb_total : forall a b, leb a b = true \/ leb b a = true.
Proof. intros a b. apply String.leb_total. Qed.
End CodeUnitOrder.

Module CodeUnitSort := Sort CodeUnitOrder.

(** [Array.from(servicesMap.keys()).sort()].  The result of a sort by a
    total order does not depend on the algorithm; merge sort stands for the
    engine's. *)
Definition listServiceNames (servicesMap : services_map) : list string :=
  CodeUnitSort.sort (map_keys servicesMap).

(** The local variables [lines], [headers] and the two indices of
    [getServicesMap], as functions of its argument. *)
Definition table_lines (podsData : string) : list string :=
  split LF (trim podsData).
Definition table_headers (podsData : string) : list string :=
  split_ws (hd EmptyString (table_lines podsData)).
Definition data_lines (podsData : string) : list string :=
  tl (table_lines podsData).
Definition namespaceIndex_of (podsData : string) : option nat :=
  indexOf "NAMESPACE" (table_headers podsData).
Definition nameIndex_of (podsData : string) : option nat :=
  indexOf "NAME" (table_headers podsData).

(** ** Definitions used by the statements *)

(** *** Texts *)

(** The end of a line. *)
Definition nl : string := String LF EmptyString.

Fixpoint all_chars (p : ascii -> bool) (s : string) : bool :=
  match s with
  | EmptyString => true
  | String c s' => p c && all_chars p s'
  end.

Definition not_LF (c : ascii) : bool := negb (Ascii.eqb c LF).
Definition not_space (c : ascii) : bool := negb (is_space c).

Definition starts_nonspace (s : string) : bool :=
  match s with
  | EmptyString => false
  | String c _ => not_space c
  end.

Fixpoint ends_nonspace (s : string) : bool :=
  match s with
  | EmptyString => false
  | String c EmptyString => not_space c
  | String _ s' => ends_nonspace s'
  end.

(** *** States of the matcher *)

(** [y] is a state that a match started at [x] can be in: further in the
    same input. *)
Definition reach (x y : state) : Prop :=
  String.length (snd y) <= String.length (snd x) /\
  fst y + String.length (snd y) = fst x + String.length (snd x).

(** The matcher looks at its continuation on such states only. *)
Definition local (m : state -> (state -> option state) -> option state) : Prop :=
  forall x c1 c2,
    (forall y, reach x y -> c1 y = c2 y) -> m x c1 = m x c2.

(** What a matcher returns comes from its continuation, on such a state. *)
Definition sourced (m : state -> (state -> option state) -> option state) : Prop :=
  forall x c z,
    m x c = Some z -> exists y, reach x y /\ c y = Some z.

(** *** Patterns without syntax characters *)

(** The [SyntaxCharacter]s of ECMAScript patterns. *)
Definition is_syntax_char (c : ascii) : bool :=
  match c with
  | "^"%char | "$"%char | "\"%char | "."%char | "*"%char | "+"%char
  | "?"%char | "("%char | ")"%char | "["%char | "]"%char | "{"%char
  | "}"%char | "|"%char => true
  | _ => false
  end.

(** A string that reads as itself in a pattern. *)
Definition plain (s : string) : bool :=
  all_chars (fun c => negb (is_syntax_char c)) s.

(** [Some rest] when [s] is [p ++ rest]. *)
Fixpoint strip_prefix (p s : string) : option string :=
  match p, s with
  | EmptyString, _ => Some s
  | String a p', String b s' =>
      if Ascii.eqb a b then strip_prefix p' s' else None
  | String _ _, EmptyString => None
  end.

(** The namespace strip in the words of the specification (4.2, step 3): if
    the name begins with the namespace followed by a dash, that leading
    segment is removed, once; the namespace is text, not a pattern. *)
Definition spec_strip_namespace (ns s : string) : string :=
  match strip_prefix (ns ++ "-") s with
  | Some rest => rest
  | None => s
  end.

Fixpoint chars (s : string) : list regex :=
  match s with
  | EmptyString => []
  | String c s' => Chr c :: chars s'
  end.

(** *** What a data line binds *)

(** The environment prefix strip in the words of the specification (4.2,
    steps 1 and 2): the first of [dev-], [qa-], [stg-] that the name begins
    with is removed; [None] when the name begins with none of them. *)
Definition spec_strip_environment (name : string) : option string :=
  match strip_prefix "dev-" name with
  | Some rest => Some rest
  | None =>
      match strip_prefix "qa-" name with
      | Some rest => Some rest
      | None => strip_prefix "stg-" name
      end
  end.

(** A row that binds nothing, in the words of C7: its name lacks all three
    environment prefixes, or what the prefix strip and the namespace strip
    of the specification leave of it has fewer than three parts between
    dashes.  The namespace is the one resolved for the row; a row without
    namespace has nothing more stripped. *)
Definition noise_row (namespaceColumn : option string) (nameColumn : string)
  : bool :=
  match spec_strip_environment nameColumn with
  | None => true
  | Some stripped =>
      let remainder :=
        match namespaceColumn with
        | Some ns => spec_strip_namespace ns stripped
        | None => stripped
        end in
      (List.length (split dash remainder) <? 3)%nat
  end.

(** What a data line binds when it resolves: the service name, the
    environment and the stored details (lines 252-284). *)
Definition line_binding (namespaceIndex nameIndex : option nat)
  (namespace : option string) (line : string)
  : option (string * env * service_details) :=
  match at_index (split_ws line) nameIndex with
  | None => None
  | Some nameColumn =>
      match env_prefix nameColumn with
      | None => None
      | Some e =>
          let nsc := namespace_column namespace namespaceIndex (split_ws line) in
          match strip_namespace nsc (replace_first env_prefix_re nameColumn) with
          | Returned modifiedName =>
              let parts := split dash modifiedName in
              if (2 <? List.length parts)%nat
              then Some (join "-" (slice_init2 parts), e,
                         mkDetails (join "-" (slice_last2 parts)) nsc)
              else None
          | _ => None
          end
      end
  end.

Definition binds (b : option (string * env * service_details))
  (s : string) (e : env) : option service_details :=
  match b with
  | Some (s', e', d) => if String.eqb s' s && env_eqb e' e then Some d else None
  | None => None
  end.

(** The details given to [(s, e)] by the last of the bindings that names
    this pair. *)
Fixpoint last_binding (bs : list (option (string * env * service_details)))
  (s : string) (e : env) : option service_details :=
  match bs with
  | [] => None
  | b :: bs' =>
      match last_binding bs' s e with
      | Some d => Some d
      | None => binds b s e
      end
  end.

(** *** Tables given by their cells *)

(** A cell: a non-empty string without white space. *)
Definition is_cell (t : string) : bool :=
  negb (String.eqb t EmptyString) && all_chars not_space t.

(** A line of cells, with at least one cell. *)
Definition is_row (r : list string) : bool :=
  negb (Nat.eqb (List.length r) 0) && forallb is_cell r.

(** The text of a table: cells separated by a space, lines by a line feed. *)
Definition render_line (cells : list string) : string := join " " cells.
Definition render_table (header : list string) (rows : list (list string))
  : string :=
  join nl (map render_line (header :: rows)).

(** A column added at position [k]. *)
Fixpoint insert_at (k : nat) (x : string) (l : list string) : list string :=
  match k, l with
  | 0, _ => x :: l
  | S k', y :: l' => y :: insert_at k' x l'
  | S _, [] => [x]
  end.

(** Where a column index lands once a column is added at [k]. *)
Definition shift_index (k : nat) (i : option nat) : option nat :=
  match i with
  | None => None
  | Some j => Some (if (j <? k)%nat then j else S j)
  end.

(** *** Environment tags *)

(** The string assigned to [envPrefix] (lines 254, 256, 258): the property
    name under which a binding is stored and the text that
    [${environment}] puts in a command. *)
Definition env_tag (e : env) : string :=
  match e with
  | dev => "dev"
  | qa => "qa"
  | stg => "stg"
  end.

(** [serviceDetails.namespace], under a name that the parameter [namespace]
    of [getServicesMap] does not hide. *)
Definition namespace_of (d : service_details) : option string := namespace d.

(** *** Entries and lines *)

(** The object stored under a service has some environment bound. *)
Definition bound_somewhere (o : environments) : Prop :=
  exists e d, get_env e o = Some d.

(** The body of the loop does not throw on this line: the line reaches the
    NAME column and, if the name has an environment prefix, the namespace
    pattern is read and applied. *)
Definition line_returns (namespaceIndex nameIndex : option nat)
  (namespace : option string) (line : string) : Prop :=
  match at_index (split_ws line) nameIndex with
  | None => False
  | Some nameColumn =>
      match env_prefix nameColumn with
      | None => True
      | Some _ =>
          exists modifiedName,
            strip_namespace
              (namespace_column namespace namespaceIndex (split_ws line))
              (replace_first env_prefix_re nameColumn) = Returned modifiedName
      end
  end.

(** *** Aligned columns *)

(** White space between two cells of a line: not empty, no line feed. *)
Definition is_gap (g : string) : bool :=
  negb (String.eqb g EmptyString) &&
  all_chars (fun c => is_space c && not_LF c) g.

(** A line given by its first cell and, for each further cell, the white
    space before it and the cell. *)
Fixpoint padded_line (c : string) (rest : list (string * string)) : string :=
  match rest with
  | [] => c
  | (g, c') :: rest' => (c ++ g ++ padded_line c' rest')%string
  end.

Definition padded_cells (l : string * list (string * string)) : list string :=
  fst l :: map snd (snd l).

Definition is_padded (l : string * list (string * string)) : bool :=
  is_cell (fst l) &&
  forallb (fun gc => is_gap (fst gc) && is_cell (snd gc)) (snd l).

Definition padded_table (header : string * list (string * string))
  (rows : list (string * list (string * string))) : string :=
  join nl (map (fun l => padded_line (fst l) (snd l)) (header :: rows)).

(** ** The user interface: events of one run of the command

    What the command handler of [activate] and its [Spinner] do to the
    editor is kept as a list of events, latest first.  The output channel of
    a run is the text of its [Append] events; a terminal is known by its
    name.  Of the option records passed to the prompts, the prompt, the
    place holder, the items and the offered value are kept
    ([ignoreFocusOut] is always [true]).  The calls of the editor API are
    taken not to throw. *)

(** What [execPromise] rejects with (lines 7-10): the error of [exec], known
    by the text that [${error}] gives, or [new Error(stderr)]. *)
Inductive exec_failure : Type :=
| ExecError (shown : string)
| StderrOutput (stderr : string).

(** What the [catch] of the handler can receive. *)
Inductive thrown : Type :=
| Rejected (f : exec_failure)
| Raised (e : js_error).

Inductive event : Type :=
| CreateOutputChannel (name : string)
| ShowOutputChannel
| Append (text : string)
| ShowInputBox (prompt placeHolder : string) (value : option string)
| ShowQuickPick (items : list string) (placeHolder : string)
| Exec (cmd : string)
| ShowInformationMessage (text : string)
| ShowErrorMessage (text : string)
| ShowCaughtError (error : thrown)        (* [`Error: ${error}`] *)
| CreateTerminal (name : string)
| ShowTerminal (name : string)
| SendText (terminal text : string).

(** The state of one run: the fields of its [Spinner], the interval timers
    that are set, the events so far, and the two arrays of [activate]. *)
Record session : Type := mkSession {
  intervalId : option nat;       (* [null] or the handle of [setInterval] *)
  message : string;
  live_timers : list nat;
  next_timer : nat;
  events : list event;
  terminals : list string;
  outputChannels : list string
}.

Definition emit (e : event) (s : session) : session :=
  mkSession (intervalId s) (message s) (live_timers s) (next_timer s)
    (e :: events s) (terminals s) (outputChannels s).

(** [outputChannel.append(text)] and [outputChannel.appendLine(text)] *)
Definition append (text : string) : session -> session := emit (Append text).
Definition appendLine (text : string) : session -> session :=
  emit (Append (text ++ nl)).

(** The text of the output channel. *)
Fixpoint channel_text_rev (evs : list event) : string :=
  match evs with
  | [] => EmptyString
  | Append text :: evs' => (channel_text_rev evs' ++ text)%string
  | _ :: evs' => channel_text_rev evs'
  end.

Definition channel_text (s : session) : string := channel_text_rev (events s).

(** ** [Spinner] (lines 19-54) *)

Module Spinner.

(** [new Spinner(outputChannel)] *)
Definition create (s : session) : session :=
  mkSession None EmptyString (live_timers s) (next_timer s) (events s)
    (terminals s) (outputChannels s).

(** [start(message)]: nothing if an interval is set; otherwise the message
    is kept and written with three dots, and an interval is set. *)
Definition start (msg : string) (s : session) : session :=
  match intervalId s with
  | Some _ => s
  | None =>
      let h := next_timer s in
      mkSession (Some h) msg (h :: live_timers s) (S h)
        (Append (msg ++ "...") :: events s) (terminals s) (outputChannels s)
  end.

(** [clearInterval(h)] *)
Definition clear (h : nat) (timers : list nat) : list nat :=
  filter (fun h' => negb (Nat.eqb h' h)) timers.

(** [stop(success)]: nothing unless an interval is set; then it is cleared
    and [done.] or [failed.] is written. *)
Definition stop (success : bool) (s : session) : session :=
  match intervalId s with
  | Some h =>
      mkSession None (message s) (clear h (live_timers s)) (next_timer s)
        (Append (if success then "done." else "failed.") :: events s)
        (terminals s) (outputChannels s)
  | None => s
  end.

(** The callback of the interval (line 39), run when the timer [h] fires; a
    cleared timer does not fire. *)
Definition fire (h : nat) (s : session) : session :=
  if existsb (Nat.eqb h) (live_timers s) then append "." s else s.

End Spinner.

(** The timers that are set fire, each [n] times, while the handler waits. *)
Fixpoint fire_all (hs : list nat) (s : session) : session :=
  match hs with
  | [] => s
  | h :: hs' => fire_all hs' (Spinner.fire h s)
  end.

Fixpoint await (n : nat) (s : session) : session :=
  match n with
  | 0 => s
  | S n' => await n' (fire_all (live_timers s) s)
  end.

(** A call of the spinner from outside, or a timer firing. *)
Inductive spinner_call : Type :=
| Start (msg : string)
| Stop (success : bool)
| Fire (h : nat).

Definition spinner_step (s : session) (c : spinner_call) : session :=
  match c with
  | Start msg => Spinner.start msg s
  | Stop success => Spinner.stop success s
  | Fire h => Spinner.fire h s
  end.

Fixpoint dots (n : nat) : string :=
  match n with
  | 0 => EmptyString
  | S n' => ("." ++ dots n')%string
  end.

(** What one start, [n] firings and one stop write. *)
Definition cycle_text (c : string * nat * bool) : string :=
  let '(msg, n, success) := c in
  (msg ++ "..." ++ dots n ++ (if success then "done." else "failed."))%string.

(** What a begun cycle has written: the message, three dots, and one dot
    for each of the [n] firings so far. *)
Definition begun_text (running : option (string * nat)) : string :=
  match running with
  | Some (msg, n) => (msg ++ "..." ++ dots n)%string
  | None => EmptyString
  end.

(** The cycles that a list of calls makes, read off the calls alone: the
    closed cycles in order, and the one that is still running.  [h] is the
    handle of the timer of the running cycle, or of the next one when none
    runs; [running] is the message of the running cycle with the number of
    firings of its timer so far.  A start opens a cycle when none runs, a
    stop closes the running one, a firing counts when it is of the timer of
    the running cycle; every other call is passed over. *)
Fixpoint cycles_of (h : nat) (running : option (string * nat))
  (calls : list spinner_call)
  : list (string * nat * bool) * option (string * nat) :=
  match calls with
  | [] => ([], running)
  | c :: calls' =>
      match c, running with
      | Start msg, None => cycles_of h (Some (msg, 0)) calls'
      | Stop success, Some (msg, n) =>
          let r := cycles_of (S h) None calls' in
          ((msg, n, success) :: fst r, snd r)
      | Fire h', Some (msg, n) =>
          cycles_of h (Some (msg, if Nat.eqb h' h then S n else n)) calls'
      | _, _ => cycles_of h running calls'
      end
  end.

(** ** [execPromise] (lines 4-16) *)

(** The arguments that [exec] gives to its callback; the error, when there
    is one, is known by the text that [${error}] gives. *)
Record exec_callback : Type := mkExec {
  error : option string;
  stdout : string;
  stderr : string
}.

(** A string in a condition. *)
Definition truthy (s : string) : bool := negb (String.eqb s EmptyString).

Definition execPromise (r : exec_callback) : string + exec_failure :=
  match error r with
  | Some shown => inr (ExecError shown)
  | None =>
      if truthy (stderr r) then inr (StderrOutput (stderr r))
      else inl (stdout r)
  end.

(** [`${error}`] for what [execPromise] rejects with. *)
Definition failure_text (f : exec_failure) : string :=
  match f with
  | ExecError shown => shown
  | StderrOutput err => ("Error: " ++ err)%string
  end.

(** ** The command handler of [activate] (lines 64-231) *)

(** What the handler is given while it waits: the answer, and how often the
    timers fired meanwhile. *)
Record awaited (A : Type) : Type := mkAwaited {
  fired : nat;
  answer : A
}.

Arguments mkAwaited {A} fired answer.
Arguments fired {A} a.
Arguments answer {A} a.

(** Everything one run of the command gets from outside, in the order of
    its [await]s. *)
Record answers : Type := mkAnswers {
  clock : string;                                (* [toLocaleTimeString()] *)
  namespace_box : awaited (option string);       (* line 77 *)
  pods_exec : awaited exec_callback;             (* line 91 *)
  service_pick : awaited (option string);        (* line 104 *)
  environment_pick : awaited (option env);       (* line 119 *)
  localPort_box : awaited (option string);       (* line 146 *)
  port_exec : awaited exec_callback;             (* line 167 *)
  servicePort_box : awaited (option string);     (* line 178 *)
  logs_pick : awaited (option string)            (* line 207 *)
}.

(** How a block of the handler ends. *)
Inductive ending (A : Type) : Type :=
| Next (a : A)             (* goes on *)
| Return                   (* [return;] *)
| Throw (error : thrown)   (* an exception or a rejected promise *)
| Beyond.                  (* [getServicesMap] met a pattern outside the
                              modelled syntax *)

Arguments Next {A} a.
Arguments Return {A}.
Arguments Throw {A} error.
Arguments Beyond {A}.

(** [x || d] and [x ? ... : ...] on a string that may be [undefined]. *)
Definition or_else (x : option string) (d : string) : string :=
  match x with
  | Some v => if truthy v then v else d
  | None => d
  end.

Definition is_truthy (x : option string) : bool :=
  match x with
  | Some v => truthy v
  | None => false
  end.

(** [namespace || null] *)
Definition or_null (x : option string) : option string :=
  if is_truthy x then x else None.

(** [`${x}`] for a string that may be [undefined]. *)
Definition js_text (x : option string) : string :=
  match x with
  | Some v => v
  | None => "undefined"
  end.

Definition getPodsCommand (namespace : option string) : string :=
  if is_truthy namespace
  then ("kubectl get pods --namespace " ++ js_text namespace)%string
  else "kubectl get pods --all-namespaces".

(** [${environment}-${serviceNamespace}-${selectedService}-${serviceDetails.id}] *)
Definition pod_name (environment : env) (serviceNamespace : option string)
  (selectedService serviceId : string) : string :=
  (env_tag environment ++ "-" ++ js_text serviceNamespace ++ "-" ++
   selectedService ++ "-" ++ serviceId)%string.

Definition getServicePortCommand (environment : env)
  (serviceNamespace : option string) (selectedService : string) : string :=
  ("kubectl get service --namespace " ++ js_text serviceNamespace ++ " " ++
   env_tag environment ++ "-" ++ js_text serviceNamespace ++ "-" ++
   selectedService ++ " -o jsonpath={.spec.ports[*].port}")%string.

Definition portForwardCommand (environment : env)
  (serviceNamespace : option string) (selectedService serviceId
   localPort servicePort : string) : string :=
  ("kubectl port-forward --namespace " ++ js_text serviceNamespace ++ " " ++
   pod_name environment serviceNamespace selectedService serviceId ++ " " ++
   localPort ++ ":" ++ servicePort)%string.

Definition logsCommand (environment : env) (serviceNamespace : option string)
  (selectedService serviceId : string) : string :=
  ("kubectl logs --namespace " ++ js_text serviceNamespace ++ " " ++
   pod_name environment serviceNamespace selectedService serviceId ++ " -f")%string.

(** [vscode.window.createTerminal(name)], [terminals.push], [show()] *)
Definition open_terminal (name : string) (s : session) : session :=
  let s1 := emit (CreateTerminal name) s in
  emit (ShowTerminal name)
    (mkSession (intervalId s1) (message s1) (live_timers s1) (next_timer s1)
       (events s1) (terminals s1 ++ [name]) (outputChannels s1)).

(** Lines 66-73. *)
Definition open_channel (name : string) (s : session) : session :=
  let s1 := emit (CreateOutputChannel name) s in
  Spinner.create
    (emit ShowOutputChannel
       (mkSession (intervalId s1) (message s1) (live_timers s1) (next_timer s1)
          (events s1) (terminals s1) (outputChannels s1 ++ [name]))).

(** [showLogs === "Yes"] *)
Definition is_yes (x : option string) : bool :=
  match x with
  | Some v => String.eqb v "Yes"
  | None => false
  end.

(** Lines 206-223: the question about the logs and the second terminal. *)
Definition logs_stage (a : answers) (environment : env)
  (serviceNamespace : option string) (selectedService serviceId
   localPort : string) (s : session) : ending unit * session :=
  let s := emit (ShowQuickPick ["Yes"; "No"]
                   "Would you like to see the logs in real time?") s in
  let s := await (fired (logs_pick a)) s in
  if is_yes (answer (logs_pick a)) then
    let cmd := logsCommand environment serviceNamespace selectedService
                 serviceId in
    let s := appendLine (nl ++ "Running: " ++ cmd) s in
    let name := ("K8s Logs (" ++ selectedService ++ ":" ++ localPort ++ ")")%string in
    let s := open_terminal name s in
    (Next tt, emit (SendText name cmd) s)
  else (Next tt, s).

(** Lines 144-204: the ports, the detection of the service port and the
    first terminal. *)
Definition forward_stage (a : answers) (namespace : option string)
  (environment : env) (selectedService : string)
  (serviceDetails : service_details) (s : session) : ending unit * session :=
  let s := emit (ShowInputBox "Enter local port" "3000" (Some "3000")) s in
  let s := await (fired (localPort_box a)) s in
  let localPort := or_else (answer (localPort_box a)) "3000" in
  let s := appendLine ("Local port: " ++ localPort) s in
  let serviceNamespace :=
    if is_truthy namespace then namespace else namespace_of serviceDetails in
  let cmd := getServicePortCommand environment serviceNamespace
               selectedService in
  let s := appendLine ("Running: " ++ cmd) s in
  let s := Spinner.start "Detecting port on the Kubernetes service" s in
  let s := emit (Exec cmd) s in
  let s := await (fired (port_exec a)) s in
  let '(servicePort, s) :=
    match execPromise (answer (port_exec a)) with
    | inl out =>
        let s := Spinner.stop true s in
        (out, appendLine (nl ++ "Port detected: " ++ out) s)
    | inr f =>
        let s := Spinner.stop false s in
        ("3000",
         appendLine ("Error detecting port: " ++ failure_text f) s)
    end in
  let s :=
    emit (ShowInputBox
            "Enter the destination port on the Kubernetes service. Try using port 3000 if the detected port fails"
            "3000" (Some (or_else (Some servicePort) "3000"))) s in
  let s := await (fired (servicePort_box a)) s in
  let servicePort := or_else (answer (servicePort_box a)) "3000" in
  let s := appendLine ("Destination port: " ++ servicePort) s in
  let cmd := portForwardCommand environment serviceNamespace selectedService
               (id serviceDetails) localPort servicePort in
  let s := appendLine ("Running: " ++ cmd) s in
  let s := Spinner.start "Initializing port forwarding" s in
  let name :=
    ("K8s Port Forward (" ++ selectedService ++ ":" ++ localPort ++ ")")%string in
  let s := open_terminal name s in
  let s := emit (SendText name cmd) s in
  let s := Spinner.stop true s in
  let s := emit (ShowInformationMessage
                   ("Service available at: http://localhost:" ++ localPort)) s in
  logs_stage a environment serviceNamespace selectedService
    (id serviceDetails) localPort s.

(** The message of lines 132-134. *)
Definition quote : string := String (ascii_of_nat 34) EmptyString.

Definition environment_missing (environment : env) (selectedService : string)
  : string :=
  ("The selected environment " ++ quote ++ env_tag environment ++ quote ++
   " does not exist for the service " ++ quote ++ selectedService ++ quote)%string.

(** Lines 94-142: the catalog, the service and the environment. *)
Definition select_stage (a : answers) (namespace : option string)
  (podsData : string) (s : session) : ending unit * session :=
  match getServicesMap podsData (or_null namespace) with
  | Threw e => (Throw (Raised e), s)
  | Unmodelled => (Beyond, s)
  | Returned servicesMap =>
      let servicesList := listServiceNames servicesMap in
      if (List.length servicesList =? 0)%nat then
        (Return, emit (ShowInformationMessage "No services found") s)
      else
        let s := emit (ShowQuickPick servicesList "Select a service") s in
        let s := await (fired (service_pick a)) s in
        if negb (is_truthy (answer (service_pick a))) then (Return, s)
        else
          let selectedService := js_text (answer (service_pick a)) in
          let s := appendLine (nl ++ "You selected service: " ++ selectedService) s in
          let s := emit (ShowQuickPick ["dev"; "qa"; "stg"] "Select environment") s in
          let s := await (fired (environment_pick a)) s in
          match answer (environment_pick a) with
          | None => (Return, s)
          | Some environment =>
              let s := appendLine ("Selected environment: " ++ env_tag environment) s in
              match lookup servicesMap selectedService environment with
              | None =>
                  (Return,
                   emit (ShowErrorMessage
                           (environment_missing environment selectedService))
                     s)
              | Some serviceDetails =>
                  let s := appendLine ("Service ID: " ++ id serviceDetails) s in
                  let s := appendLine ("Service namespace: " ++
                                       js_text (namespace_of serviceDetails)) s in
                  forward_stage a namespace environment selectedService
                    serviceDetails s
              end
          end
  end.

(** Lines 75-93: the [try] block up to the pod table. *)
Definition try_block (a : answers) (s : session) : ending unit * session :=
  let s := emit (ShowInputBox "Enter namespace (optional)"
                   "Leave empty for all namespaces" None) s in
  let s := await (fired (namespace_box a)) s in
  let namespace := answer (namespace_box a) in
  let cmd := getPodsCommand namespace in
  let s := appendLine ("Running: " ++ cmd) s in
  let s := Spinner.start "Loading services" s in
  let s := emit (Exec cmd) s in
  let s := await (fired (pods_exec a)) s in
  match execPromise (answer (pods_exec a)) with
  | inr f => (Throw (Rejected f), s)
  | inl podsData =>
      let s := Spinner.stop true s in
      select_stage a namespace podsData s
  end.

(** The handler registered for [k8s-service-loader.start]: the [try] block
    and its [catch] (lines 224-230). *)
Definition start_command (a : answers) (s : session) : ending unit * session :=
  let s := open_channel ("K8s Service Loader - " ++ clock a) s in
  match try_block a s with
  | (Throw error, s) =>
      let s := Spinner.stop false s in
      (Next tt, emit (ShowCaughtError error) s)
  | r => r
  end.

(** The texts sent to terminals, in the order of sending. *)
Fixpoint sent_rev (evs : list event) : list string :=
  match evs with
  | [] => []
  | SendText _ text :: evs' => sent_rev evs' ++ [text]
  | _ :: evs' => sent_rev evs'
  end.

Definition sent (s : session) : list string := sent_rev (events s).

(** The messages shown to the user by a run. *)
Definition is_message (e : event) : bool :=
  match e with
  | ShowInformationMessage _ | ShowErrorMessage _ | ShowCaughtError _ => true
  | _ => false
  end.

(** *** Readings of a session *)

(** The interval that the spinner remembers is the only one set. *)
Definition timers_match (s : session) : Prop :=
  live_timers s =
  match intervalId s with
  | Some h => [h]
  | None => []
  end.

(** The spinner of the session is where the reading [h], [running] of the
    calls says: stopped with [h] the next handle, or running on the timer
    [h] with that message. *)
Definition tracks (s : session) (h : nat) (running : option (string * nat))
  : Prop :=
  match running with
  | None => intervalId s = None /\ next_timer s = h
  | Some (msg, _) =>
      intervalId s = Some h /\ next_timer s = S h /\ message s = msg
  end.

(** The events other than writes to the output channel. *)
Definition is_append (e : event) : bool :=
  match e with
  | Append _ => true
  | _ => false
  end.

Definition visible (s : session) : list event :=
  filter (fun e => negb (is_append e)) (events s).

Definition messages (s : session) : list event :=
  filter is_message (events s).

(** The session where a run ends. *)
Definition after_command (a : answers) (s : session) : session :=
  snd (start_command a s).

(** A session without what the spinner writes and remembers: the writes to
    the output channel and the message are left out. *)
Definition erase (s : session) : session :=
  mkSession (intervalId s) EmptyString (live_timers s) (next_timer s)
    (visible s) (terminals s) (outputChannels s).

(** [Spinner.start] and [Spinner.stop] on such a session. *)
Definition start_erased (s : session) : session :=
  match intervalId s with
  | Some _ => s
  | None =>
      mkSession (Some (next_timer s)) EmptyString
        (next_timer s :: live_timers s) (S (next_timer s)) (events s)
        (terminals s) (outputChannels s)
  end.

Definition stop_erased (s : session) : session :=
  match intervalId s with
  | Some h =>
      mkSession None EmptyString (Spinner.clear h (live_timers s))
        (next_timer s) (events s) (terminals s) (outputChannels s)
  | None => s
  end.

(** The answers of a run with another answer to the namespace box. *)
Definition with_namespace (x : option string) (a : answers) : answers :=
  mkAnswers (clock a) (mkAwaited (fired (namespace_box a)) x) (pods_exec a)
    (service_pick a) (environment_pick a) (localPort_box a) (port_exec a)
    (servicePort_box a) (logs_pick a).

(** * Properties *)

(** ** The primitives on concrete inputs

    Each equation is what a JavaScript engine answers for the same call. *)

Example trim_table :
  trim ("  NAME READY" ++ nl ++ "dev-a-b-c 1/1 " ++ nl ++ nl) =
  ("NAME READY" ++ nl ++ "dev-a-b-c 1/1")%string.
Proof. reflexivity. Qed.

Example split_lines :
  split LF ("a" ++ nl ++ nl ++ "b" ++ nl) = ["a"; ""; "b"; ""] /\
  split LF "" = [""] /\
  split dash "team-a-checkout-7f9c4d-x2k1p" =
    ["team"; "a"; "checkout"; "7f9c4d"; "x2k1p"] /\
  split dash "-a-" = [""; "a"; ""].
Proof. repeat split. Qed.

Example split_white_space :
  split_ws "NAMESPACE   NAME  READY" = ["NAMESPACE"; "NAME"; "READY"] /\
  split_ws "  a b" = [""; "a"; "b"] /\
  split_ws ("a b" ++ String (ascii_of_nat 13) "") = ["a"; "b"; ""] /\
  split_ws "" = [""] /\
  split_ws " " = [""; ""].
Proof. repeat split. Qed.

Example index_and_slices :
  indexOf "NAME" ["NAMESPACE"; "NAME"; "READY"] = Some 1 /\
  indexOf "NAME" ["NAMESPACE"; "READY"] = None /\
  at_index ["a"; "b"] (Some 2) = None /\
  slice_init2 ["a"; "b"; "c"; "d"] = ["a"; "b"] /\
  slice_last2 ["a"; "b"; "c"; "d"] = ["c"; "d"] /\
  join "-" ["a"; "b"] = "a-b" /\ join "-" [] = "".
Proof. repeat split. Qed.

Example patterns_read :
  RegExp "^team-a-" = Pattern (Seq Bol (literal "team-a-")) /\
  RegExp "^a|b-" =
    Pattern (Alt (Seq Bol (literal "a")) (literal "b-")) /\
  RegExp "^(a|b)+?-" =
    Pattern (Seq Bol
               (Seq (Repeat 1 None false
                       (Group (Alt (literal "a") (literal "b"))))
                  (literal "-"))) /\
  RegExp "^a{2-" = Pattern (Seq Bol (literal "a{2-")).
Proof. repeat split. Qed.

Example patterns_refused :
  RegExp "^(-" = Invalid /\ RegExp "^a)-" = Invalid /\
  RegExp "^*-" = Invalid /\ RegExp "^a**-" = Invalid /\
  RegExp "^a|+-" = Invalid /\ RegExp "^a+??-" = Invalid.
Proof. repeat split. Qed.

Example patterns_outside :
  RegExp "^a\.b-" = Unsupported /\ RegExp "^[ab]-" = Unsupported /\
  RegExp "^a{2,3}-" = Unsupported /\ RegExp "^(?:a)-" = Unsupported.
Proof. repeat split. Qed.

Example global_replace :
  replace_all (Repeat 0 None true (Chr "a")) "baaac" = "bc" /\
  replace_all (Repeat 1 None false (Chr "a")) "baaac" = "bc" /\
  replace_all (Alt (literal "a") (literal "ab")) "abab" = "bb" /\
  replace_all (Seq (Group (Alt (literal "a") (literal "ab"))) (literal "c"))
    "abcac" = "" /\
  replace_all (Seq (Repeat 0 None true (Chr "x")) Eol) "axxbxx" = "axxb" /\
  replace_all (Seq Bol (Seq Any (literal "-"))) "x-y-z" = "y-z" /\
  replace_all
    (Seq (Repeat 1 None true (Group (Repeat 0 None true (Chr "a")))) (Chr "b"))
    "baaabc" = "c".
Proof. repeat split. Qed.

Example first_replace :
  replace_first env_prefix_re "qa-billing-svc-abc123-9f0e1" =
    "billing-svc-abc123-9f0e1" /\
  replace_first env_prefix_re "dev-dev-a" = "dev-a" /\
  replace_first env_prefix_re "prod-dev-a" = "prod-dev-a".
Proof. repeat split. Qed.

(** ** The function and its local variables *)

Lemma getServicesMap_unfold podsData namespace :
  getServicesMap podsData namespace =
  process_lines (namespaceIndex_of podsData) (nameIndex_of podsData)
    namespace [] (data_lines podsData).
Proof. reflexivity. Qed.

Lemma process_line_unfold namespaceIndex nameIndex namespace m line :
  process_line namespaceIndex nameIndex namespace m line =
  match at_index (split_ws line) nameIndex with
  | None => Threw TypeError
  | Some nameColumn =>
      match env_prefix nameColumn with
      | None => Returned m
      | Some e =>
          let nsc := namespace_column namespace namespaceIndex (split_ws line) in
          modifiedName <-
            strip_namespace nsc (replace_first env_prefix_re nameColumn) ;;
          Returned (record_service e nsc modifiedName m)
      end
  end.
Proof. reflexivity. Qed.

Lemma process_lines_app namespaceIndex nameIndex namespace m l1 l2 :
  process_lines namespaceIndex nameIndex namespace m (l1 ++ l2) =
  (m1 <- process_lines namespaceIndex nameIndex namespace m l1 ;;
   process_lines namespaceIndex nameIndex namespace m1 l2).
Proof.
  revert m. induction l1 as [|line l1 IH]; intros m; simpl.
  - reflexivity.
  - destruct (process_line namespaceIndex nameIndex namespace m line);
      simpl; auto.
Qed.

(** ** Trimming and splitting *)

Section TrimSplit.

Lemma all_chars_app p s t :
  all_chars p (s ++ t) = all_chars p s && all_chars p t.
Proof.
  induction s as [|c s IH]; simpl.
  - reflexivity.
  - rewrite IH. now rewrite andb_assoc.
Qed.

Lemma trimStart_spaces s :
  all_chars is_space s = true -> trimStart s = EmptyString.
Proof.
  induction s as [|c s IH]; simpl; intros H.
  - reflexivity.
  - apply andb_true_iff in H as [Hc Hs]. rewrite Hc. auto.
Qed.

Lemma trimStart_app_spaces l s :
  all_chars is_space l = true -> trimStart (l ++ s) = trimStart s.
Proof.
  induction l as [|c l IH]; simpl; intros H.
  - reflexivity.
  - apply andb_true_iff in H as [Hc Hl]. rewrite Hc. auto.
Qed.

Lemma trimEnd_spaces s :
  all_chars is_space s = true -> trimEnd s = EmptyString.
Proof.
  induction s as [|c s IH]; simpl; intros H.
  - reflexivity.
  - apply andb_true_iff in H as [Hc Hs]. rewrite (IH Hs), Hc. reflexivity.
Qed.

Lemma trimEnd_app_spaces s t :
  all_chars is_space t = true -> trimEnd (s ++ t) = trimEnd s.
Proof.
  intros Ht. induction s as [|c s IH]; simpl.
  - now apply trimEnd_spaces.
  - now rewrite IH.
Qed.

Lemma trim_padded lead s trail :
  all_chars is_space lead = true ->
  all_chars is_space trail = true ->
  trim (lead ++ s ++ trail) = trim s.
Proof.
  intros Hl Ht. unfold trim. rewrite (trimStart_app_spaces _ _ Hl).
  induction s as [|c s IH]; simpl.
  - now rewrite (trimStart_spaces _ Ht).
  - destruct (is_space c); [exact IH|].
    change (String c (s ++ trail)) with ((String c s ++ trail)%string).
    now apply trimEnd_app_spaces.
Qed.

Lemma all_chars_trimStart p s :
  all_chars p s = true -> all_chars p (trimStart s) = true.
Proof.
  induction s as [|c s IH]; simpl; intros H; [reflexivity|].
  destruct (is_space c); [|exact H].
  apply andb_true_iff in H as [_ Hs]. auto.
Qed.

Lemma all_chars_trimEnd p s :
  all_chars p s = true -> all_chars p (trimEnd s) = true.
Proof.
  induction s as [|c s IH]; simpl; intros H; [reflexivity|].
  apply andb_true_iff in H as [Hc Hs]. specialize (IH Hs).
  destruct (trimEnd s) as [|d t].
  - destruct (is_space c); simpl; [reflexivity|]. now rewrite Hc.
  - simpl in *. now rewrite Hc, IH.
Qed.

Lemma all_chars_trim p s :
  all_chars p s = true -> all_chars p (trim s) = true.
Proof.
  intros H. unfold trim. now apply all_chars_trimEnd, all_chars_trimStart.
Qed.

(** Without a line feed there is one line. *)
Lemma split_LF_one_line s :
  all_chars not_LF s = true -> split LF s = [s].
Proof.
  induction s as [|c s IH]; simpl; intros H; [reflexivity|].
  apply andb_true_iff in H as [Hc Hs]. unfold not_LF in Hc.
  apply negb_true_iff in Hc. rewrite Hc, (IH Hs). reflexivity.
Qed.

End TrimSplit.

(** ** The bounds of the matcher are never reached *)

Section MatcherBounds.

Lemma reach_refl x : reach x x.
Proof. unfold reach. lia. Qed.

Lemma reach_trans x y z : reach x y -> reach y z -> reach x z.
Proof. unfold reach. lia. Qed.

Lemma reach_next i b t : reach (i, String b t) (S i, t).
Proof. unfold reach. simpl. lia. Qed.

Lemma reach_same_index x y :
  reach x y -> fst y <> fst x -> String.length (snd y) < String.length (snd x).
Proof. unfold reach. lia. Qed.

Lemma repeat_matcher_local m :
  local m -> forall fuel min max greedy,
    local (fun x c => repeat_matcher m fuel min max greedy x c).
Proof.
  intros Hm. induction fuel as [|fuel IH]; intros min max greedy x c1 c2 Hc.
  - reflexivity.
  - simpl.
    assert (Hx : c1 x = c2 x) by apply Hc, reach_refl.
    assert (Hd : m x (fun y : state =>
                   if ((min =? 0) && (fst y =? fst x))%nat then None
                   else repeat_matcher m fuel (pred min) (option_map pred max)
                          greedy y c1) =
                 m x (fun y : state =>
                   if ((min =? 0) && (fst y =? fst x))%nat then None
                   else repeat_matcher m fuel (pred min) (option_map pred max)
                          greedy y c2)).
    { apply Hm. intros y Hy.
      destruct ((min =? 0) && (fst y =? fst x))%nat; [reflexivity|].
      apply IH. intros z Hz. apply Hc. exact (reach_trans _ _ _ Hy Hz). }
    destruct max as [[|max]|]; [exact Hx| |]; rewrite Hd, Hx; reflexivity.
Qed.

Lemma repeat_matcher_fuel m :
  local m -> forall n1 n2 min max greedy x c,
    min + String.length (snd x) < n1 ->
    min + String.length (snd x) < n2 ->
    repeat_matcher m n1 min max greedy x c =
    repeat_matcher m n2 min max greedy x c.
Proof.
  intros Hm. induction n1 as [|n1 IH]; intros n2 min max greedy x c H1 H2;
    [lia|].
  destruct n2 as [|n2]; [lia|]. simpl.
  assert (Hd : m x (fun y : state =>
                 if ((min =? 0) && (fst y =? fst x))%nat then None
                 else repeat_matcher m n1 (pred min) (option_map pred max)
                        greedy y c) =
               m x (fun y : state =>
                 if ((min =? 0) && (fst y =? fst x))%nat then None
                 else repeat_matcher m n2 (pred min) (option_map pred max)
                        greedy y c)).
  { apply Hm. intros y Hy.
    destruct (Nat.eqb_spec min 0) as [->|Hmin]; simpl.
    - destruct (Nat.eqb_spec (fst y) (fst x)) as [_|Hne]; [reflexivity|].
      pose proof (reach_same_index _ _ Hy Hne).
      apply IH; simpl in *; lia.
    - destruct Hy as [Hy _]. apply IH; lia. }
  destruct max as [[|max]|]; [reflexivity| |]; now rewrite Hd.
Qed.

Lemma run_local r : local (run r).
Proof.
  induction r as [|a| | | |r1 IH1 r2 IH2|r1 IH1 r2 IH2|r1 IH1|min max greedy r1 IH1];
    intros x c1 c2 Hc; cbn [run].
  - apply Hc, reach_refl.
  - destruct x as [i [|b t]]; simpl; [reflexivity|].
    destruct (Ascii.eqb a b); [|reflexivity]. apply Hc, reach_next.
  - destruct x as [i [|b t]]; simpl; [reflexivity|].
    destruct (is_line_terminator b); [reflexivity|]. apply Hc, reach_next.
  - destruct (fst x =? 0)%nat; [|reflexivity]. apply Hc, reach_refl.
  - destruct (snd x); [|reflexivity]. apply Hc, reach_refl.
  - apply IH1. intros y Hy. apply IH2. intros z Hz.
    apply Hc. exact (reach_trans _ _ _ Hy Hz).
  - now rewrite (IH1 x c1 c2 Hc), (IH2 x c1 c2 Hc).
  - now apply IH1.
  - exact (repeat_matcher_local _ IH1 _ min max greedy x c1 c2 Hc).
Qed.

(** The bound that [run] gives to a quantifier is enough: a larger one
    changes nothing. *)
Lemma run_Repeat_fuel min max greedy r x c extra :
  repeat_matcher (run r) (S (min + String.length (snd x)) + extra) min max
    greedy x c =
  run (Repeat min max greedy r) x c.
Proof. cbn [run]. apply repeat_matcher_fuel; [apply run_local|lia|lia]. Qed.

Lemma repeat_matcher_sourced m :
  sourced m -> forall fuel min max greedy,
    sourced (fun x c => repeat_matcher m fuel min max greedy x c).
Proof.
  intros Hm. induction fuel as [|fuel IH]; intros min max greedy x c z.
  - discriminate.
  - simpl.
    assert (Hx : c x = Some z -> exists y, reach x y /\ c y = Some z).
    { intros H. exists x. split; [apply reach_refl|exact H]. }
    assert (Hd : m x (fun y : state =>
                   if ((min =? 0) && (fst y =? fst x))%nat then None
                   else repeat_matcher m fuel (pred min) (option_map pred max)
                          greedy y c) = Some z ->
                 exists y, reach x y /\ c y = Some z).
    { intros H. apply Hm in H as (y & Hy & H).
      destruct ((min =? 0) && (fst y =? fst x))%nat; [discriminate|].
      apply IH in H as (y' & Hy' & H).
      exists y'. split; [exact (reach_trans _ _ _ Hy Hy')|exact H]. }
    destruct max as [[|max]|]; [exact Hx| |];
      (destruct (0 <? min)%nat; [exact Hd|]);
      (destruct greedy;
       [destruct (m x _) eqn:E; [intros [= <-]; now apply Hd|exact Hx]
       |destruct (c x) eqn:E; [intros [= <-]; now apply Hx|exact Hd]]).
Qed.

Lemma run_sourced r : sourced (run r).
Proof.
  induction r as [|a| | | |r1 IH1 r2 IH2|r1 IH1 r2 IH2|r1 IH1|min max greedy r1 IH1];
    intros x c z; cbn [run].
  - intros H. exists x. split; [apply reach_refl|exact H].
  - destruct x as [i [|b t]]; simpl; [discriminate|].
    destruct (Ascii.eqb a b); [|discriminate].
    intros H. eexists. split; [apply reach_next|exact H].
  - destruct x as [i [|b t]]; simpl; [discriminate|].
    destruct (is_line_terminator b); [discriminate|].
    intros H. eexists. split; [apply reach_next|exact H].
  - destruct (fst x =? 0)%nat; [|discriminate].
    intros H. exists x. split; [apply reach_refl|exact H].
  - destruct (snd x); [|discriminate].
    intros H. exists x. split; [apply reach_refl|exact H].
  - intros H. apply IH1 in H as (y & Hy & H). apply IH2 in H as (y' & Hy' & H).
    exists y'. split; [exact (reach_trans _ _ _ Hy Hy')|exact H].
  - destruct (run r1 x c) eqn:E.
    + intros [= <-]. now apply IH1.
    + apply IH2.
  - apply IH1.
  - exact (repeat_matcher_sourced _ IH1 _ min max greedy x c z).
Qed.

Lemma match_at_reach r x y : match_at r x = Some y -> reach x y.
Proof.
  unfold match_at. intros H. apply run_sourced in H as (y' & Hy & [= <-]).
  exact Hy.
Qed.

(** The bound that [replace_all] gives to the search is enough. *)
Lemma replace_all_from_fuel r n1 :
  forall n2 x,
    String.length (snd x) < n1 -> String.length (snd x) < n2 ->
    replace_all_from n1 r x = replace_all_from n2 r x.
Proof.
  induction n1 as [|n1 IH]; intros n2 x H1 H2; [lia|].
  destruct n2 as [|n2]; [lia|]. simpl.
  assert (Hadv : emit_and_advance x (replace_all_from n1 r) =
                 emit_and_advance x (replace_all_from n2 r)).
  { unfold emit_and_advance. destruct x as [i [|b t]]; simpl in *; [reflexivity|].
    f_equal. apply IH; simpl; lia. }
  destruct (match_at r x) as [y|] eqn:E; [|exact Hadv].
  destruct (Nat.eqb_spec (fst y) (fst x)) as [_|Hne]; [exact Hadv|].
  pose proof (reach_same_index _ _ (match_at_reach _ _ _ E) Hne).
  apply IH; lia.
Qed.

Lemma replace_all_fuel r s extra :
  replace_all_from (S (String.length s) + extra) r (0, s) = replace_all r s.
Proof. unfold replace_all. apply replace_all_from_fuel; simpl; lia. Qed.

End MatcherBounds.

(** ** Patterns made of pattern characters only *)

Section PlainPatterns.

Lemma strip_prefix_Some p s rest :
  strip_prefix p s = Some rest <-> s = (p ++ rest)%string.
Proof.
  revert s. induction p as [|a p IH]; intros s; simpl.
  - split; [intros [= ->]|intros ->]; reflexivity.
  - destruct s as [|b s]; [split; discriminate|].
    destruct (Ascii.eqb_spec a b) as [->|Hab].
    + rewrite IH. split; [intros ->|intros [= ->]]; reflexivity.
    + split; [discriminate|]. intros [= <- _]. now elim Hab.
Qed.

Lemma strip_prefix_startsWith p s :
  startsWith p s = match strip_prefix p s with Some _ => true | None => false end.
Proof.
  unfold startsWith. revert s.
  induction p as [|a p IH]; intros [|b s]; simpl; try reflexivity.
  destruct (Ascii.ascii_dec a b) as [->|Hab].
  - rewrite Ascii.eqb_refl. apply IH.
  - apply Ascii.eqb_neq in Hab. now rewrite Hab.
Qed.

Lemma parse_from_plain_char c s cur outer :
  is_syntax_char c = false ->
  parse_from (String c s) cur outer =
  parse_from s (push_term (Chr c) Atom cur) outer.
Proof.
  destruct c as [[] [] [] [] [] [] [] []]; intros H;
    first [discriminate H | reflexivity].
Qed.

Lemma seq_of_app l acc :
  fold_left (fun a t => Seq t a) l acc =
  fold_right (fun t a => Seq t a) acc (rev l).
Proof.
  revert acc. induction l as [|t l IH]; intros acc; simpl.
  - reflexivity.
  - rewrite IH, fold_right_app. reflexivity.
Qed.

Lemma literal_chars s :
  literal s = fold_right (fun t a => Seq t a) Eps (chars s).
Proof. induction s as [|c s IH]; simpl; congruence. Qed.

Lemma parse_from_plain s cur :
  plain s = true ->
  parse_from s cur [] =
  Pattern (alt_of (alts cur) (seq_of (rev (chars s) ++ terms cur))).
Proof.
  unfold plain. revert cur. induction s as [|c s IH]; intros cur H.
  - reflexivity.
  - simpl in H. apply andb_true_iff in H as [Hc Hs].
    apply negb_true_iff in Hc.
    rewrite (parse_from_plain_char _ _ _ _ Hc), (IH _ Hs). simpl.
    now rewrite <- app_assoc.
Qed.

(** The pattern built from a plain namespace. *)
Lemma RegExp_plain ns :
  plain ns = true ->
  RegExp ("^" ++ ns ++ "-") = Pattern (Seq Bol (literal (ns ++ "-"))).
Proof.
  intros H. unfold RegExp.
  change (parse_from ("^" ++ ns ++ "-") empty_frame [])
    with (parse_from (ns ++ "-") (push_term Bol NoAtom empty_frame) []).
  rewrite parse_from_plain.
  - simpl. f_equal. unfold seq_of.
    rewrite seq_of_app, rev_app_distr, rev_involutive. simpl.
    now rewrite literal_chars.
  - unfold plain in *. rewrite all_chars_app, H. reflexivity.
Qed.

Lemma run_literal p i s c :
  run (literal p) (i, s) c =
  match strip_prefix p s with
  | Some rest => c (String.length p + i, rest)
  | None => None
  end.
Proof.
  revert i s. induction p as [|a p IH]; intros i s; simpl.
  - reflexivity.
  - destruct s as [|b s]; [reflexivity|].
    destruct (Ascii.eqb a b); [|reflexivity].
    rewrite IH. destruct (strip_prefix p s); [|reflexivity].
    f_equal. f_equal. lia.
Qed.

(** A pattern anchored by [^] finds nothing past index 0. *)
Lemma replace_all_from_anchored fuel r i s :
  i <> 0 -> replace_all_from fuel (Seq Bol r) (i, s) = s.
Proof.
  revert i s. induction fuel as [|fuel IH]; intros i s Hi; simpl.
  - reflexivity.
  - unfold match_at. simpl. destruct (Nat.eqb_spec i 0) as [->|_]; [now elim Hi|].
    unfold emit_and_advance; simpl. destruct s as [|b t]; [reflexivity|].
    now rewrite IH.
Qed.

Lemma replace_all_literal p s :
  p <> EmptyString ->
  replace_all (Seq Bol (literal p)) s =
  match strip_prefix p s with
  | Some rest => rest
  | None => s
  end.
Proof.
  intros Hp. unfold replace_all. simpl. unfold match_at. simpl.
  rewrite run_literal. destruct (strip_prefix p s) as [rest|].
  - simpl. destruct (Nat.eqb_spec (String.length p + 0) 0) as [E|_].
    + destruct p; [now elim Hp|discriminate E].
    + apply replace_all_from_anchored. destruct p; [now elim Hp|discriminate].
  - unfold emit_and_advance; simpl. destruct s as [|b t]; [reflexivity|].
    now rewrite replace_all_from_anchored.
Qed.

(** For a namespace without syntax characters the code strips as the
    specification says: the leading [ns-] is removed, once, and nothing
    else. *)
Lemma strip_namespace_plain ns s :
  plain ns = true -> ns <> EmptyString ->
  strip_namespace (Some ns) s = Returned (spec_strip_namespace ns s).
Proof.
  intros Hp Hne. unfold strip_namespace, spec_strip_namespace.
  destruct ns as [|a ns']; [now elim Hne|].
  rewrite (RegExp_plain _ Hp). f_equal.
  apply replace_all_literal. discriminate.
Qed.

(** [/^(dev-|qa-|stg-)/] removes the environment prefix that [startsWith]
    found. *)
Lemma replace_first_env_prefix name :
  replace_first env_prefix_re name =
  match strip_prefix "dev-" name with
  | Some rest => rest
  | None =>
      match strip_prefix "qa-" name with
      | Some rest => rest
      | None =>
          match strip_prefix "stg-" name with
          | Some rest => rest
          | None => name
          end
      end
  end.
Proof.
  assert (Anch : forall s i, i <> 0 -> replace_first_from env_prefix_re i s = s).
  { induction s as [|b t IH]; intros i Hi; simpl; unfold match_at; simpl;
      destruct (Nat.eqb_spec i 0) as [->|_]; try (now elim Hi); try reflexivity.
    now rewrite IH. }
  unfold replace_first.
  destruct name as [|b t]; [reflexivity|].
  cbn [replace_first_from]. unfold match_at, env_prefix_re.
  cbn [run fst Nat.eqb]. rewrite !run_literal.
  destruct (strip_prefix "dev-" (String b t)); [reflexivity|].
  destruct (strip_prefix "qa-" (String b t)); [reflexivity|].
  destruct (strip_prefix "stg-" (String b t)); [reflexivity|].
  now rewrite Anch.
Qed.

End PlainPatterns.

(** ** The header row *)

Section HeaderRow.

Lemma process_lines_no_NAME namespaceIndex namespace m line lines :
  process_lines namespaceIndex None namespace m (line :: lines) =
  Threw TypeError.
Proof. reflexivity. Qed.

Lemma process_lines_undefined_namespace nameIndex k lines :
  nameIndex = Some k ->
  Forall (fun line => k < List.length (split_ws line)) lines ->
  forall m, exists m',
    process_lines None nameIndex None m lines = Returned m'.
Proof.
  intros -> H. induction H as [|line lines Hk _ IH]; intros m; simpl.
  - now exists m.
  - rewrite process_line_unfold. simpl at_index.
    destruct (nth_error (split_ws line) k) as [nameColumn|] eqn:E.
    + destruct (env_prefix nameColumn); simpl; apply IH.
    + apply nth_error_None in E. lia.
Qed.

(** C1, as the code has it.  The header is never checked.  When it has no
    NAME column, the first data line makes the call throw a [TypeError]
    ([columns[-1]] is [undefined]) and no catalog is returned; without a data
    line the call returns the empty catalog.  A missing NAMESPACE column is
    no failure either: with no namespace passed, and every data line
    reaching the NAME column, the call returns a catalog. *)
Theorem header_without_required_column :
  forall podsData namespace,
    (nameIndex_of podsData = None -> data_lines podsData <> [] ->
     getServicesMap podsData namespace = Threw TypeError) /\
    (nameIndex_of podsData = None -> data_lines podsData = [] ->
     getServicesMap podsData namespace = Returned []) /\
    (forall k,
       namespace = None -> namespaceIndex_of podsData = None ->
       nameIndex_of podsData = Some k ->
       Forall (fun line => k < List.length (split_ws line))
         (data_lines podsData) ->
       exists m, getServicesMap podsData namespace = Returned m).
Proof.
  intros podsData namespace. rewrite getServicesMap_unfold.
  split; [|split].
  - intros -> Hd. destruct (data_lines podsData); [now elim Hd|reflexivity].
  - intros _ ->. reflexivity.
  - intros k -> -> Hk Hall. rewrite Hk.
    now apply (process_lines_undefined_namespace _ k).
Qed.

Lemma header_without_required_column_witness :
  getServicesMap ("READY STATUS" ++ nl ++ "1/1 Running") (Some "team-a")
    = Threw TypeError /\
  getServicesMap "READY STATUS" None = Returned [] /\
  exists m, getServicesMap ("NAME READY" ++ nl ++ "dev-web-7f9c4d-x2k1p 1/1")
              None = Returned m.
Proof.
  split; [|split].
  - apply (proj1 (header_without_required_column
                    ("READY STATUS" ++ nl ++ "1/1 Running") (Some "team-a")));
      [reflexivity | discriminate].
  - apply (proj1 (proj2 (header_without_required_column "READY STATUS" None)));
      reflexivity.
  - apply (proj2 (proj2 (header_without_required_column
                           ("NAME READY" ++ nl ++ "dev-web-7f9c4d-x2k1p 1/1")
                           None)) 0); try reflexivity.
    repeat constructor.
Defined.

(** C1, as stated, fails: a header with neither NAME nor NAMESPACE, followed
    by no data line, gives the empty catalog and no error. *)
Lemma header_only_without_NAME_returns :
  nameIndex_of "READY STATUS" = None /\
  namespaceIndex_of "READY STATUS" = None /\
  getServicesMap "READY STATUS" None = Returned [].
Proof. repeat split. Qed.

End HeaderRow.

(** ** Short data lines *)

Section ShortLines.

Lemma process_lines_short_line namespaceIndex nameIndex namespace m0 m
    before line after :
  at_index (split_ws line) nameIndex = None ->
  process_lines namespaceIndex nameIndex namespace m0 before = Returned m ->
  process_lines namespaceIndex nameIndex namespace m0 (before ++ line :: after)
  = Threw TypeError.
Proof.
  intros Hname Hbefore. rewrite process_lines_app, Hbefore. simpl.
  rewrite process_line_unfold, Hname. reflexivity.
Qed.

(** C2, as the code has it.  A data line is never skipped for its length.  A
    line whose tokens do not reach the NAME column makes the call throw a
    [TypeError] there: what the lines before it built is lost and the lines
    after it are not read.  A line that reaches NAME but not NAMESPACE, no
    namespace being passed, is processed like any other, with an undefined
    namespace. *)
Theorem short_data_line :
  forall podsData namespace before line after,
    data_lines podsData = before ++ line :: after ->
    (at_index (split_ws line) (nameIndex_of podsData) = None ->
     forall m,
       process_lines (namespaceIndex_of podsData) (nameIndex_of podsData)
         namespace [] before = Returned m ->
       getServicesMap podsData namespace = Threw TypeError) /\
    (forall nameColumn m,
       at_index (split_ws line) (nameIndex_of podsData) = Some nameColumn ->
       namespace = None ->
       at_index (split_ws line) (namespaceIndex_of podsData) = None ->
       process_line (namespaceIndex_of podsData) (nameIndex_of podsData)
         namespace m line =
       match env_prefix nameColumn with
       | None => Returned m
       | Some e =>
           Returned (record_service e None
                       (replace_first env_prefix_re nameColumn) m)
       end).
Proof.
  intros podsData namespace before line after Hlines. split.
  - intros Hname m Hbefore. rewrite getServicesMap_unfold, Hlines.
    exact (process_lines_short_line _ _ _ _ _ _ _ _ Hname Hbefore).
  - intros nameColumn m Hname -> Hns.
    rewrite process_line_unfold, Hname. unfold namespace_column.
    rewrite Hns. now destruct (env_prefix nameColumn).
Qed.

Lemma short_data_line_witness :
  getServicesMap
    ("NAMESPACE NAME" ++ nl ++ "team-a dev-team-a-web-7f9c4d-x2k1p" ++ nl ++
     "kube-system" ++ nl ++ "x qa-x-y-1-2") None = Threw TypeError /\
  process_line None (Some 0) None [] "dev-web-7f9c4d-x2k1p" =
  Returned [("web", mkEnvs (Some (mkDetails "7f9c4d-x2k1p" None)) None None)].
Proof.
  split.
  - eapply (proj1 (short_data_line
                     ("NAMESPACE NAME" ++ nl ++
                      "team-a dev-team-a-web-7f9c4d-x2k1p" ++ nl ++
                      "kube-system" ++ nl ++ "x qa-x-y-1-2") None
                     ["team-a dev-team-a-web-7f9c4d-x2k1p"] "kube-system"
                     ["x qa-x-y-1-2"] eq_refl)); reflexivity.
  - apply (proj2 (short_data_line
                    ("NAME READY" ++ nl ++ "dev-web-7f9c4d-x2k1p") None
                    [] "dev-web-7f9c4d-x2k1p" [] eq_refl)
             "dev-web-7f9c4d-x2k1p" []); reflexivity.
Defined.

(** C2, as stated, fails: the line [kube-system] has no token under NAME; the
    call throws, where skipping the line would have returned the catalog of
    the other line. *)
Lemma short_line_throws :
  getServicesMap
    ("NAMESPACE NAME" ++ nl ++ "kube-system" ++ nl ++
     "team-a dev-team-a-checkout-7f9c4d-x2k1p") None = Threw TypeError /\
  getServicesMap
    ("NAMESPACE NAME" ++ nl ++
     "team-a dev-team-a-checkout-7f9c4d-x2k1p") None =
  Returned [("checkout",
             mkEnvs (Some (mkDetails "7f9c4d-x2k1p" (Some "team-a"))) None None)].
Proof. split; reflexivity. Qed.

End ShortLines.

(** ** The namespace inside a pattern *)

Section NamespacePattern.

(** C3 at its failing input: the namespace [(] is pasted unescaped into the
    pattern source [^(-], which is no valid pattern; the constructor throws
    and the call fails. *)
Theorem unescaped_namespace_throws :
  RegExp "^(-" = Invalid /\
  getServicesMap ("NAMESPACE NAME" ++ nl ++ "( dev-a-b-c") None
    = Threw SyntaxError /\
  getServicesMap ("NAME" ++ nl ++ "dev-a-b-c") (Some "(")
    = Threw SyntaxError.
Proof. repeat split. Qed.

(** C4 at its failing inputs.  With the namespace [.], the pattern [^.-]
    removes [x-], which is not the namespace segment; with the namespace
    [a|b], the pattern [^a|b-] has an unanchored alternative and every [b-]
    inside the name is removed.  The strip of the specification leaves both
    names as they are. *)
Theorem unescaped_namespace_strips_elsewhere :
  (strip_namespace (Some ".") "x-foo-1-2" = Returned "foo-1-2" /\
   spec_strip_namespace "." "x-foo-1-2" = "x-foo-1-2") /\
  (strip_namespace (Some "a|b") "web-job-sub-7f-x2" = Returned "wejosu7f-x2" /\
   spec_strip_namespace "a|b" "web-job-sub-7f-x2" = "web-job-sub-7f-x2") /\
  getServicesMap ("NAMESPACE NAME" ++ nl ++ ". dev-x-foo-1-2") None =
  Returned [("foo", mkEnvs (Some (mkDetails "1-2" (Some "."))) None None)].
Proof. repeat split. Qed.

End NamespacePattern.

(** ** Scenario A *)

(** C6: header [NAMESPACE NAME], line
    [team-a dev-team-a-checkout-7f9c4d-x2k1p], no namespace passed: the
    catalog has the one service [checkout], bound in [dev] to the id
    [7f9c4d-x2k1p] in namespace [team-a]. *)
Theorem scenario_A :
  exists m,
    getServicesMap
      ("NAMESPACE NAME" ++ nl ++ "team-a dev-team-a-checkout-7f9c4d-x2k1p")
      None = Returned m /\
    lookup m "checkout" dev = Some (mkDetails "7f9c4d-x2k1p" (Some "team-a")) /\
    map_keys m = ["checkout"] /\
    lookup m "checkout" qa = None /\ lookup m "checkout" stg = None.
Proof. eexists. repeat split. Qed.

(** Scenarios C and D of the specification: the namespace [billing] is
    stripped from [qa-billing-svc-abc123-9f0e1]; [dev-foo-ab] is too short to
    hold a name and an id. *)
Example scenarios_C_D :
  getServicesMap ("NAME" ++ nl ++ "qa-billing-svc-abc123-9f0e1")
    (Some "billing") =
  Returned [("svc", mkEnvs None
                      (Some (mkDetails "abc123-9f0e1" (Some "billing"))) None)]
  /\
  getServicesMap ("NAME" ++ nl ++ "dev-foo-ab") (Some "billing") = Returned [].
Proof. split; reflexivity. Qed.

(** ** Tables without data lines *)

(** C10: an input made of white space, one line without line feed, and white
    space again (so: the empty text, white space only, a header line alone
    with or without its end of line) gives the empty catalog, whatever
    namespace is passed. *)
Theorem no_data_line_empty_catalog :
  forall lead header trail namespace,
    all_chars is_space lead = true ->
    all_chars not_LF header = true ->
    all_chars is_space trail = true ->
    getServicesMap (lead ++ header ++ trail) namespace = Returned [].
Proof.
  intros lead header trail namespace Hl Hh Ht.
  rewrite getServicesMap_unfold. unfold data_lines, table_lines.
  rewrite (trim_padded _ _ _ Hl Ht).
  rewrite (split_LF_one_line _ (all_chars_trim _ _ Hh)). reflexivity.
Qed.

Lemma no_data_line_empty_catalog_witness :
  getServicesMap ("" ++ "" ++ "") None = Returned [] /\
  getServicesMap (("  " ++ nl) ++ "" ++ "") (Some "team-a") = Returned [] /\
  getServicesMap ("" ++ "NAMESPACE   NAME   READY" ++ nl) None = Returned [].
Proof.
  split; [|split].
  - apply (no_data_line_empty_catalog "" "" "" None); reflexivity.
  - apply (no_data_line_empty_catalog ("  " ++ nl) "" "" (Some "team-a"));
      reflexivity.
  - apply (no_data_line_empty_catalog "" "NAMESPACE   NAME   READY" nl None);
      reflexivity.
Defined.

(** ** Rows that bind nothing *)

Section NoiseRows.

Lemma record_service_few_parts e nsc modifiedName m :
  List.length (split dash modifiedName) < 3 ->
  record_service e nsc modifiedName m = m.
Proof.
  intros H. unfold record_service.
  destruct (Nat.ltb_spec 2 (List.length (split dash modifiedName))); [lia|].
  reflexivity.
Qed.

(** The prefix strip of the specification and the code's tests and pattern
    (lines 253-263) agree. *)
Lemma spec_strip_environment_code nameColumn :
  match spec_strip_environment nameColumn with
  | None => env_prefix nameColumn = None
  | Some stripped =>
      env_prefix nameColumn <> None /\
      replace_first env_prefix_re nameColumn = stripped
  end.
Proof.
  unfold spec_strip_environment, env_prefix.
  rewrite replace_first_env_prefix, !strip_prefix_startsWith.
  destruct (strip_prefix "dev-" nameColumn); [split; [discriminate|reflexivity]|].
  destruct (strip_prefix "qa-" nameColumn); [split; [discriminate|reflexivity]|].
  destruct (strip_prefix "stg-" nameColumn); [split; [discriminate|reflexivity]|].
  reflexivity.
Qed.

(** A namespace that the code strips as the specification says: none, or a
    non-empty one without pattern syntax character. *)
Lemma strip_namespace_as_specified nsc s :
  match nsc with
  | Some ns => plain ns = true /\ ns <> EmptyString
  | None => True
  end ->
  strip_namespace nsc s =
  Returned match nsc with
           | Some ns => spec_strip_namespace ns s
           | None => s
           end.
Proof.
  destruct nsc as [ns|]; [|reflexivity].
  intros [Hp Hne]. now apply strip_namespace_plain.
Qed.

Lemma process_line_noise namespaceIndex nameIndex namespace line nameColumn :
  at_index (split_ws line) nameIndex = Some nameColumn ->
  match namespace_column namespace namespaceIndex (split_ws line) with
  | Some ns => plain ns = true /\ ns <> EmptyString
  | None => True
  end ->
  noise_row (namespace_column namespace namespaceIndex (split_ws line))
    nameColumn = true ->
  forall m, process_line namespaceIndex nameIndex namespace m line = Returned m.
Proof.
  intros Hname Hns Hnoise m. rewrite process_line_unfold, Hname.
  unfold noise_row in Hnoise.
  pose proof (spec_strip_environment_code nameColumn) as Hcode.
  destruct (spec_strip_environment nameColumn) as [stripped|].
  - destruct Hcode as [_ <-].
    destruct (env_prefix nameColumn); [|reflexivity].
    cbv zeta in *. rewrite (strip_namespace_as_specified _ _ Hns). simpl.
    apply Nat.ltb_lt in Hnoise. now rewrite record_service_few_parts.
  - now rewrite Hcode.
Qed.

Lemma process_lines_noise namespaceIndex nameIndex namespace line m0 before
  after :
  (forall m, process_line namespaceIndex nameIndex namespace m line
             = Returned m) ->
  process_lines namespaceIndex nameIndex namespace m0
    (before ++ line :: after) =
  process_lines namespaceIndex nameIndex namespace m0 (before ++ after).
Proof.
  intros Hline. rewrite !process_lines_app.
  destruct (process_lines namespaceIndex nameIndex namespace m0 before);
    simpl; try reflexivity.
  now rewrite Hline.
Qed.

End NoiseRows.

(** C7 at its failing inputs.  The rows [dev-foo-ab] in the namespace [(]
    (or [default #(], as it can be typed into the namespace box) and
    [dev-a+b-foo-ab] in the namespace [a+b] bind nothing by the claim: two
    parts are left of the first name, and of the second once its leading
    [a+b-] is stripped.  The code pastes the namespace unescaped into a
    pattern: on the first row the constructor throws and the call fails; on
    the second the pattern [^a+b-] does not match the text [a+b-], nothing
    is stripped, and the row is stored as service [a+b]. *)
Theorem noise_row_with_unescaped_namespace :
  (noise_row (Some "(") "dev-foo-ab" = true /\
   getServicesMap ("NAMESPACE NAME" ++ nl ++ "( dev-foo-ab") None =
   Threw SyntaxError /\
   getServicesMap ("NAME" ++ nl ++ "dev-foo-ab") (Some "(") =
   Threw SyntaxError) /\
  (noise_row (Some "default #(") "dev-foo-ab" = true /\
   getServicesMap ("NAME" ++ nl ++ "dev-foo-ab") (Some "default #(") =
   Threw SyntaxError) /\
  (noise_row (Some "a+b") "dev-a+b-foo-ab" = true /\
   getServicesMap ("NAMESPACE NAME" ++ nl ++ "a+b dev-a+b-foo-ab") None =
   Returned [("a+b", mkEnvs (Some (mkDetails "foo-ab" (Some "a+b"))) None None)]).
Proof. repeat split. Qed.

(** A row whose name starts with none of [dev-], [qa-], [stg-], or whose
    name, once the environment prefix and a leading [<namespace>-] are
    stripped, has fewer than three parts between dashes, leaves the catalog
    as it was and raises nothing, and the outcome of the whole input is the
    one of the same table without that row: as soon as the namespace of the
    row is absent, or not empty and without pattern syntax character. *)
Theorem plain_noise_row_is_skipped :
  forall podsData namespace before line after nameColumn,
    data_lines podsData = before ++ line :: after ->
    at_index (split_ws line) (nameIndex_of podsData) = Some nameColumn ->
    match namespace_column namespace (namespaceIndex_of podsData)
            (split_ws line) with
    | Some ns => plain ns = true /\ ns <> EmptyString
    | None => True
    end ->
    noise_row
      (namespace_column namespace (namespaceIndex_of podsData) (split_ws line))
      nameColumn = true ->
    (forall m,
       process_line (namespaceIndex_of podsData) (nameIndex_of podsData)
         namespace m line = Returned m) /\
    (forall podsData',
       table_headers podsData' = table_headers podsData ->
       data_lines podsData' = before ++ after ->
       getServicesMap podsData namespace = getServicesMap podsData' namespace).
Proof.
  intros podsData namespace before line after nameColumn Hlines Hname Hns
    Hnoise.
  pose proof (process_line_noise _ _ _ _ _ Hname Hns Hnoise) as Hline.
  split; [exact Hline|].
  intros podsData' Hh Hd. rewrite !getServicesMap_unfold.
  unfold namespaceIndex_of, nameIndex_of in *. rewrite Hh, Hlines, Hd.
  now apply process_lines_noise.
Qed.

(** Scenario D, row [dev-foo-ab], and a system pod without prefix. *)
Lemma plain_noise_row_is_skipped_witness :
  getServicesMap
    ("NAME READY" ++ nl ++ "dev-web-11-aa 1/1" ++ nl ++ "dev-foo-ab   1/1")
    (Some "team-a") =
  getServicesMap ("NAME READY" ++ nl ++ "dev-web-11-aa 1/1") (Some "team-a")
  /\
  getServicesMap
    ("NAMESPACE NAME" ++ nl ++ "kube-system coredns-5d78c-abcde" ++ nl ++
     "team-a dev-team-a-web-11-aa") None =
  getServicesMap ("NAMESPACE NAME" ++ nl ++ "team-a dev-team-a-web-11-aa") None.
Proof.
  assert (H1 : "team-a"%string <> EmptyString) by discriminate.
  assert (H2 : "kube-system"%string <> EmptyString) by discriminate.
  split.
  - apply (proj2 (plain_noise_row_is_skipped
                    ("NAME READY" ++ nl ++ "dev-web-11-aa 1/1" ++ nl ++
                     "dev-foo-ab   1/1") (Some "team-a")
                    ["dev-web-11-aa 1/1"] "dev-foo-ab   1/1" [] "dev-foo-ab"
                    eq_refl eq_refl (conj eq_refl H1) eq_refl));
      reflexivity.
  - apply (proj2 (plain_noise_row_is_skipped
                    ("NAMESPACE NAME" ++ nl ++
                     "kube-system coredns-5d78c-abcde" ++ nl ++
                     "team-a dev-team-a-web-11-aa") None
                    [] "kube-system coredns-5d78c-abcde"
                    ["team-a dev-team-a-web-11-aa"] "coredns-5d78c-abcde"
                    eq_refl eq_refl (conj eq_refl H2) eq_refl));
      reflexivity.
Defined.

(** ** The catalog as a map *)

Section CatalogMap.

Lemma map_get_set k v m k' :
  map_get k' (map_set k v m) =
  if String.eqb k k' then Some v else map_get k' m.
Proof.
  induction m as [|[k0 v0] m IH]; simpl.
  - reflexivity.
  - destruct (String.eqb_spec k0 k) as [->|Hk]; simpl.
    + destruct (String.eqb k k'); reflexivity.
    + rewrite IH. destruct (String.eqb_spec k0 k') as [->|Hk'].
      * apply not_eq_sym, String.eqb_neq in Hk. now rewrite Hk.
      * reflexivity.
Qed.

Lemma map_get_assign k e d m k' :
  map_get k' (assign_env k e d m) =
  if String.eqb k k'
  then option_map (set_env e d) (map_get k m)
  else map_get k' m.
Proof.
  induction m as [|[k0 v0] m IH]; simpl.
  - now destruct (String.eqb k k').
  - destruct (String.eqb_spec k0 k) as [->|Hk]; simpl.
    + destruct (String.eqb k k'); reflexivity.
    + rewrite IH. destruct (String.eqb_spec k0 k') as [->|Hk'].
      * apply not_eq_sym, String.eqb_neq in Hk. now rewrite Hk.
      * reflexivity.
Qed.

Lemma get_set_env e d o e' :
  get_env e' (set_env e d o) = if env_eqb e e' then Some d else get_env e' o.
Proof. destruct e, e'; reflexivity. Qed.

Lemma map_keys_assign k e d m :
  map_keys (assign_env k e d m) = map_keys m.
Proof.
  induction m as [|[k0 v0] m IH]; simpl; [reflexivity|].
  destruct (String.eqb k0 k); simpl; [reflexivity|]. now rewrite IH.
Qed.

Lemma map_has_In k m : map_has k m = true <-> In k (map_keys m).
Proof.
  unfold map_has. induction m as [|[k0 v0] m IH]; simpl.
  - split; [discriminate|tauto].
  - destruct (String.eqb_spec k0 k) as [->|Hk].
    + tauto.
    + rewrite IH. split; [tauto|]. intros [E|H]; [now elim Hk|exact H].
Qed.

Lemma map_keys_set k v m :
  map_keys (map_set k v m) =
  if map_has k m then map_keys m else map_keys m ++ [k].
Proof.
  unfold map_has. induction m as [|[k0 v0] m IH]; simpl; [reflexivity|].
  destruct (String.eqb_spec k0 k) as [->|Hk]; simpl; [reflexivity|].
  rewrite IH. now destruct (map_get k m).
Qed.

Lemma NoDup_snoc (k : string) l : NoDup l -> ~ In k l -> NoDup (l ++ [k]).
Proof.
  intros Hl Hk. induction Hl as [|x l Hx Hl IH]; simpl.
  - constructor; [tauto|constructor].
  - constructor.
    + rewrite in_app_iff. simpl. intros [H|[H|[]]]; [tauto|].
      subst. apply Hk. now left.
    + apply IH. intros H. apply Hk. now right.
Qed.

Lemma record_service_keys e nsc modifiedName m :
  NoDup (map_keys m) -> NoDup (map_keys (record_service e nsc modifiedName m)).
Proof.
  intros H. unfold record_service.
  destruct (2 <? List.length (split dash modifiedName))%nat; [|exact H].
  rewrite map_keys_assign.
  set (k := join "-" (slice_init2 (split dash modifiedName))).
  destruct (map_has k m) eqn:E; simpl; [exact H|].
  rewrite map_keys_set, E. apply NoDup_snoc; [exact H|].
  rewrite <- map_has_In, E. discriminate.
Qed.

Lemma process_line_keys namespaceIndex nameIndex namespace m line m' :
  process_line namespaceIndex nameIndex namespace m line = Returned m' ->
  NoDup (map_keys m) -> NoDup (map_keys m').
Proof.
  rewrite process_line_unfold.
  destruct (at_index (split_ws line) nameIndex) as [nameColumn|]; [|discriminate].
  destruct (env_prefix nameColumn) as [e|].
  - cbv zeta. destruct (strip_namespace _ _); simpl; try discriminate.
    intros [= <-]. apply record_service_keys.
  - now intros [= <-].
Qed.

Lemma process_lines_keys namespaceIndex nameIndex namespace lines :
  forall m m',
    process_lines namespaceIndex nameIndex namespace m lines = Returned m' ->
    NoDup (map_keys m) -> NoDup (map_keys m').
Proof.
  induction lines as [|line lines IH]; intros m m'; simpl.
  - now intros [= <-].
  - destruct (process_line namespaceIndex nameIndex namespace m line)
      as [m1| |] eqn:E; simpl; try discriminate.
    intros H Hm. apply (IH _ _ H). exact (process_line_keys _ _ _ _ _ _ E Hm).
Qed.

(** Every catalog that [getServicesMap] returns has one entry per service. *)
Lemma getServicesMap_keys podsData namespace m :
  getServicesMap podsData namespace = Returned m -> NoDup (map_keys m).
Proof.
  rewrite getServicesMap_unfold. intros H.
  apply (process_lines_keys _ _ _ _ _ _ H). constructor.
Qed.

End CatalogMap.

(** ** Last row wins *)

Section LastWins.

Variables (namespaceIndex nameIndex : option nat) (namespace : option string).

Lemma lookup_record_service e0 nsc modifiedName m s e :
  lookup (record_service e0 nsc modifiedName m) s e =
  let parts := split dash modifiedName in
  if (2 <? List.length parts)%nat then
    if String.eqb (join "-" (slice_init2 parts)) s && env_eqb e0 e
    then Some (mkDetails (join "-" (slice_last2 parts)) nsc)
    else lookup m s e
  else lookup m s e.
Proof.
  unfold record_service. cbv zeta.
  destruct (2 <? List.length (split dash modifiedName))%nat; [|reflexivity].
  set (k := join "-" (slice_init2 (split dash modifiedName))).
  set (d := mkDetails _ _).
  unfold lookup. rewrite map_get_assign.
  destruct (String.eqb_spec k s) as [<-|Hk]; simpl.
  - unfold map_has. destruct (map_get k m) as [o|] eqn:E; simpl.
    + rewrite E. simpl. apply get_set_env.
    + rewrite map_get_set, String.eqb_refl. simpl.
      rewrite get_set_env. now destruct e.
  - unfold map_has. destruct (map_get k m); simpl; [reflexivity|].
    rewrite map_get_set. apply String.eqb_neq in Hk. now rewrite Hk.
Qed.

Lemma lookup_process_line m line m' s e :
  process_line namespaceIndex nameIndex namespace m line = Returned m' ->
  lookup m' s e =
  match binds (line_binding namespaceIndex nameIndex namespace line) s e with
  | Some d => Some d
  | None => lookup m s e
  end.
Proof.
  rewrite process_line_unfold. unfold line_binding.
  destruct (at_index (split_ws line) nameIndex) as [nameColumn|]; [|discriminate].
  destruct (env_prefix nameColumn) as [e0|]; [|now intros [= <-]].
  cbv zeta. destruct (strip_namespace _ _) as [modifiedName| |]; simpl;
    try discriminate.
  intros [= <-]. rewrite lookup_record_service. cbv zeta.
  destruct (2 <? List.length (split dash modifiedName))%nat; [|reflexivity].
  simpl. now destruct (_ && _).
Qed.

Lemma lookup_process_lines lines :
  forall m m' s e,
    process_lines namespaceIndex nameIndex namespace m lines = Returned m' ->
    lookup m' s e =
    match last_binding
            (map (line_binding namespaceIndex nameIndex namespace) lines) s e
    with
    | Some d => Some d
    | None => lookup m s e
    end.
Proof.
  induction lines as [|line lines IH]; intros m m' s e; simpl.
  - now intros [= <-].
  - destruct (process_line namespaceIndex nameIndex namespace m line)
      as [m1| |] eqn:E; simpl; try discriminate.
    intros H. rewrite (IH _ _ s e H).
    destruct (last_binding _ s e); [reflexivity|].
    apply lookup_process_line, E.
Qed.








End LastWins.



(** ** The sorted list of services *)

Section ServiceList.

Lemma string_leb_trans a b c :
  String.leb a b = true -> String.leb b c = true -> String.leb a c = true.
Proof.
  unfold String.leb. revert b c.
  induction a as [|x a IH]; intros [|y b] [|z c]; simpl; try congruence.
  unfold Ascii.compare.
  destruct (BinNat.N.compare_spec (N_of_ascii x) (N_of_ascii y)) as [Exy|Lxy|Gxy];
    destruct (BinNat.N.compare_spec (N_of_ascii y) (N_of_ascii z)) as [Eyz|Lyz|Gyz];
    destruct (BinNat.N.compare_spec (N_of_ascii x) (N_of_ascii z)) as [Exz|Lxz|Gxz];
    try congruence; try (exfalso; lia); try (intros; reflexivity).
  apply IH.
Qed.

Lemma string_leb_neq_ltb a b :
  String.leb a b = true -> a <> b -> String.ltb a b = true.
Proof.
  unfold String.leb, String.ltb. intros H Hne.
  destruct (String.compare a b) eqn:E; try congruence.
  apply String.compare_eq_iff in E. contradiction.
Qed.

Lemma sorted_NoDup_strict l :
  StronglySorted (fun a b => String.leb a b = true) l -> NoDup l ->
  StronglySorted (fun a b => String.ltb a b = true) l.
Proof.
  induction 1 as [|a l Hs IH Ha]; intros Hnd; constructor.
  - apply IH. now inversion Hnd.
  - inversion Hnd as [|? ? Hnotin _]; subst.
    rewrite Forall_forall in *. intros b Hb.
    apply string_leb_neq_ltb; [now apply Ha|].
    intros ->. contradiction.
Qed.

Lemma listServiceNames_sorted m :
  NoDup (map_keys m) ->
  StronglySorted (fun a b => String.ltb a b = true) (listServiceNames m) /\
  NoDup (listServiceNames m) /\
  Permutation (map_keys m) (listServiceNames m).
Proof.
  intros Hnd. unfold listServiceNames.
  pose proof (CodeUnitSort.Permuted_sort (map_keys m)) as Hp.
  assert (Hnd' : NoDup (CodeUnitSort.sort (map_keys m)))
    by exact (Permutation_NoDup Hp Hnd).
  split; [|split; assumption].
  apply sorted_NoDup_strict; [|exact Hnd'].
  apply CodeUnitSort.StronglySorted_sort.
  intros a b c Hab Hbc. unfold is_true, CodeUnitOrder.leb in *.
  exact (string_leb_trans _ _ _ Hab Hbc).
Qed.

End ServiceList.

(** C9: the service list of a returned catalog is in strictly ascending
    code-unit order, hence without duplicate, and holds the names of the
    catalog and no other. *)
Theorem service_list_sorted :
  forall podsData namespace m,
    getServicesMap podsData namespace = Returned m ->
    StronglySorted (fun a b => String.ltb a b = true) (listServiceNames m) /\
    NoDup (listServiceNames m) /\
    Permutation (map_keys m) (listServiceNames m).
Proof.
  intros podsData namespace m H.
  apply listServiceNames_sorted, (getServicesMap_keys _ _ _ H).
Qed.

Lemma service_list_sorted_witness :
  StronglySorted (fun a b => String.ltb a b = true) ["api"; "checkout"; "web"].
Proof.
  apply (service_list_sorted
           ("NAME" ++ nl ++ "dev-web-11-aa" ++ nl ++ "qa-api-22-bb" ++ nl ++
            "stg-checkout-33-cc" ++ nl ++ "qa-web-44-dd") (Some "")
           [("web", mkEnvs (Some (mkDetails "11-aa" (Some "")))
                      (Some (mkDetails "44-dd" (Some ""))) None);
            ("api", mkEnvs None (Some (mkDetails "22-bb" (Some ""))) None);
            ("checkout", mkEnvs None None (Some (mkDetails "33-cc" (Some ""))))]).
  reflexivity.
Defined.

(** ** Tables given by their cells *)

Section RenderedTables.

Lemma is_cell_starts t : is_cell t = true -> starts_nonspace t = true.
Proof.
  unfold is_cell. destruct t as [|c t]; simpl; [discriminate|].
  intros H. now apply andb_true_iff in H as [H _].
Qed.

Lemma all_nonspace_ends t :
  all_chars not_space t = true -> t <> EmptyString -> ends_nonspace t = true.
Proof.
  induction t as [|c t IH]; intros H Hne; [now elim Hne|].
  simpl in H. apply andb_true_iff in H as [Hc Ht].
  destruct t as [|d t]; [exact Hc|].
  change (ends_nonspace (String d t) = true). apply IH; [exact Ht|discriminate].
Qed.

Lemma is_cell_ends t : is_cell t = true -> ends_nonspace t = true.
Proof.
  unfold is_cell. intros H. apply andb_true_iff in H as [Hne H].
  apply all_nonspace_ends; [exact H|].
  intros ->. discriminate Hne.
Qed.

Lemma is_cell_nonspace t : is_cell t = true -> all_chars not_space t = true.
Proof. unfold is_cell. intros H. now apply andb_true_iff in H as [_ H]. Qed.

Lemma starts_nonspace_app a b :
  starts_nonspace a = true -> starts_nonspace (a ++ b) = true.
Proof. destruct a; [discriminate|exact (fun H => H)]. Qed.

Lemma ends_nonspace_app a b :
  ends_nonspace b = true -> ends_nonspace (a ++ b) = true.
Proof.
  intros Hb. induction a as [|c a IH]; [exact Hb|].
  simpl. destruct (a ++ b)%string eqn:E; [|exact IH].
  simpl in IH. discriminate IH.
Qed.

Lemma trimStart_id s : starts_nonspace s = true -> trimStart s = s.
Proof.
  destruct s as [|c s]; [discriminate|]. simpl. unfold not_space.
  intros H. apply negb_true_iff in H. now rewrite H.
Qed.

Lemma trimEnd_id s : ends_nonspace s = true -> trimEnd s = s.
Proof.
  induction s as [|c s IH]; [discriminate|].
  destruct s as [|d s].
  - simpl. unfold not_space. intros H. apply negb_true_iff in H. now rewrite H.
  - intros H. change (ends_nonspace (String d s) = true) in H.
    change (trimEnd (String c (String d s)))
      with (match trimEnd (String d s) with
            | EmptyString => if is_space c then EmptyString else String c EmptyString
            | t => String c t
            end).
    now rewrite (IH H).
Qed.

Lemma trim_id s :
  starts_nonspace s = true -> ends_nonspace s = true -> trim s = s.
Proof.
  intros H1 H2. unfold trim. rewrite (trimStart_id _ H1). now apply trimEnd_id.
Qed.

(** *** Lines and cells read back *)

Lemma split_cell sep t s :
  all_chars (fun c => negb (Ascii.eqb c sep)) t = true ->
  split sep (t ++ String sep s) = t :: split sep s.
Proof.
  induction t as [|c t IH]; simpl; intros H.
  - now rewrite Ascii.eqb_refl.
  - apply andb_true_iff in H as [Hc Ht]. apply negb_true_iff in Hc.
    rewrite Hc, (IH Ht). reflexivity.
Qed.

Lemma split_last sep t :
  all_chars (fun c => negb (Ascii.eqb c sep)) t = true ->
  split sep t = [t].
Proof.
  induction t as [|c t IH]; simpl; intros H; [reflexivity|].
  apply andb_true_iff in H as [Hc Ht]. apply negb_true_iff in Hc.
  rewrite Hc, (IH Ht). reflexivity.
Qed.

Lemma split_join sep lines :
  lines <> [] ->
  Forall (fun l => all_chars (fun c => negb (Ascii.eqb c sep)) l = true) lines ->
  split sep (join (String sep EmptyString) lines) = lines.
Proof.
  intros Hne H. induction H as [|l lines Hl Hls IH]; [now elim Hne|].
  destruct lines as [|l' lines].
  - simpl. now apply split_last.
  - change (join (String sep EmptyString) (l :: l' :: lines))
      with (l ++ String sep (join (String sep EmptyString) (l' :: lines)))%string.
    rewrite (split_cell _ _ _ Hl), IH; [reflexivity|discriminate].
Qed.

Lemma split_ws_cell t s :
  all_chars not_space t = true ->
  split_ws_from false (t ++ String " " s) = t :: split_ws_from true s.
Proof.
  induction t as [|c t IH]; simpl; intros H.
  - reflexivity.
  - apply andb_true_iff in H as [Hc Ht]. unfold not_space in Hc.
    apply negb_true_iff in Hc. rewrite Hc, (IH Ht). reflexivity.
Qed.

Lemma split_ws_last t :
  all_chars not_space t = true -> split_ws_from false t = [t].
Proof.
  induction t as [|c t IH]; simpl; intros H; [reflexivity|].
  apply andb_true_iff in H as [Hc Ht]. unfold not_space in Hc.
  apply negb_true_iff in Hc. rewrite Hc, (IH Ht). reflexivity.
Qed.

Lemma split_ws_gap s :
  starts_nonspace s = true -> split_ws_from true s = split_ws_from false s.
Proof.
  destruct s as [|c s]; [discriminate|]. simpl. unfold not_space.
  intros H. apply negb_true_iff in H. now rewrite H.
Qed.

Lemma render_line_starts r :
  is_row r = true -> starts_nonspace (render_line r) = true.
Proof.
  unfold is_row. destruct r as [|t r]; [discriminate|]. simpl.
  intros H. apply andb_true_iff in H as [Ht _].
  destruct r; [now apply is_cell_starts|].
  now apply starts_nonspace_app, is_cell_starts.
Qed.

Lemma render_line_ends r :
  is_row r = true -> ends_nonspace (render_line r) = true.
Proof.
  unfold is_row. destruct r as [|t r]; [discriminate|]. simpl negb.
  rewrite andb_true_l. revert t.
  induction r as [|t' r IH]; intros t H; simpl in H.
  - apply andb_true_iff in H as [Ht _]. now apply is_cell_ends.
  - apply andb_true_iff in H as [_ H].
    change (render_line (t :: t' :: r))
      with (t ++ String " " (render_line (t' :: r)))%string.
    apply ends_nonspace_app.
    change (ends_nonspace (String " " (render_line (t' :: r))))
      with (match render_line (t' :: r) with
            | EmptyString => not_space " "
            | _ => ends_nonspace (render_line (t' :: r))
            end).
    specialize (IH t' H).
    destruct (render_line (t' :: r)); [discriminate IH|exact IH].
Qed.

Lemma split_ws_render_line r :
  is_row r = true -> split_ws (render_line r) = r.
Proof.
  unfold is_row. destruct r as [|t r]; [discriminate|]. simpl negb.
  rewrite andb_true_l. unfold split_ws. revert t.
  induction r as [|t' r IH]; intros t H; simpl in H.
  - apply andb_true_iff in H as [Ht _].
    now apply split_ws_last, is_cell_nonspace.
  - apply andb_true_iff in H as [Ht H].
    change (render_line (t :: t' :: r))
      with (t ++ String " " (render_line (t' :: r)))%string.
    rewrite (split_ws_cell _ _ (is_cell_nonspace _ Ht)).
    rewrite split_ws_gap, (IH _ H); [reflexivity|].
    apply render_line_starts. unfold is_row. simpl. exact H.
Qed.

Lemma not_space_not_LF c : not_space c = true -> not_LF c = true.
Proof.
  unfold not_space, not_LF. intros H.
  destruct (Ascii.eqb_spec c LF) as [->|_]; [discriminate H|reflexivity].
Qed.

Lemma all_chars_weaken (p q : ascii -> bool) s :
  (forall c, p c = true -> q c = true) ->
  all_chars p s = true -> all_chars q s = true.
Proof.
  intros Hpq. induction s as [|c s IH]; simpl; [reflexivity|].
  intros H. apply andb_true_iff in H as [Hc Hs].
  now rewrite (Hpq _ Hc), (IH Hs).
Qed.

Lemma render_line_no_LF r :
  forallb is_cell r = true -> all_chars not_LF (render_line r) = true.
Proof.
  induction r as [|t r IH]; [reflexivity|].
  intros H. simpl in H. apply andb_true_iff in H as [Ht Hr].
  pose proof (all_chars_weaken _ _ _ not_space_not_LF (is_cell_nonspace _ Ht))
    as Ht'.
  destruct r as [|t' r]; [exact Ht'|].
  change (render_line (t :: t' :: r))
    with (t ++ String " " (render_line (t' :: r)))%string.
  rewrite all_chars_app, Ht'. simpl. apply (IH Hr).
Qed.

Lemma join_starts sep l ls :
  starts_nonspace l = true -> starts_nonspace (join sep (l :: ls)) = true.
Proof.
  intros H. simpl. destruct ls; [exact H|]. now apply starts_nonspace_app.
Qed.

Lemma join_nl_ends ls :
  ls <> [] -> Forall (fun l => ends_nonspace l = true) ls ->
  ends_nonspace (join nl ls) = true.
Proof.
  intros Hne H. induction H as [|l ls Hl Hls IH]; [now elim Hne|].
  destruct ls as [|l' ls]; [exact Hl|].
  change (join nl (l :: l' :: ls))
    with (l ++ String LF (join nl (l' :: ls)))%string.
  apply ends_nonspace_app.
  assert (IH' : ends_nonspace (join nl (l' :: ls)) = true)
    by (apply IH; discriminate).
  change (ends_nonspace (String LF (join nl (l' :: ls))))
    with (match join nl (l' :: ls) with
          | EmptyString => not_space LF
          | _ => ends_nonspace (join nl (l' :: ls))
          end).
  destruct (join nl (l' :: ls)); [discriminate IH'|exact IH'].
Qed.

(** The lines of a rendered table are the rendered header and rows. *)
Lemma table_lines_render header rows :
  is_row header = true -> Forall (fun r => is_row r = true) rows ->
  table_lines (render_table header rows) = map render_line (header :: rows).
Proof.
  intros Hh Hr. unfold table_lines, render_table.
  assert (Hall : Forall (fun r => is_row r = true) (header :: rows))
    by now constructor.
  rewrite trim_id.
  - apply (split_join LF); [discriminate|].
    apply Forall_map. eapply Forall_impl; [|exact Hall].
    intros r H. apply render_line_no_LF.
    unfold is_row in H. now apply andb_true_iff in H as [_ H].
  - apply join_starts, render_line_starts, Hh.
  - apply join_nl_ends; [discriminate|].
    apply Forall_map. eapply Forall_impl; [|exact Hall].
    intros r H. now apply render_line_ends.
Qed.

Lemma table_headers_render header rows :
  is_row header = true -> Forall (fun r => is_row r = true) rows ->
  table_headers (render_table header rows) = header.
Proof.
  intros Hh Hr. unfold table_headers.
  rewrite (table_lines_render _ _ Hh Hr). simpl.
  now apply split_ws_render_line.
Qed.

Lemma data_lines_render header rows :
  is_row header = true -> Forall (fun r => is_row r = true) rows ->
  data_lines (render_table header rows) = map render_line rows.
Proof.
  intros Hh Hr. unfold data_lines. now rewrite (table_lines_render _ _ Hh Hr).
Qed.

End RenderedTables.

(** ** The namespace as a column or as an argument *)

Section NamespaceColumn.

Lemma insert_at_length k x l :
  List.length (insert_at k x l) = S (List.length l).
Proof.
  revert l. induction k as [|k IH]; intros [|y l]; simpl; auto.
Qed.

Lemma indexOf_insert_other x y k h :
  x <> y -> k <= List.length h ->
  indexOf y (insert_at k x h) = shift_index k (indexOf y h).
Proof.
  intros Hxy. revert h. induction k as [|k IH]; intros h Hk.
  - simpl. apply String.eqb_neq in Hxy. rewrite Hxy.
    now destruct (indexOf y h).
  - destruct h as [|z h]; [simpl in Hk; lia|]. simpl in Hk |- *.
    destruct (String.eqb z y); [reflexivity|].
    rewrite IH by lia. destruct (indexOf y h) as [j|]; [|reflexivity].
    unfold shift_index, option_map.
    change (S j <? S k)%nat with (j <? k)%nat.
    now destruct (j <? k)%nat.
Qed.

Lemma indexOf_insert_same x k h :
  indexOf x h = None -> k <= List.length h ->
  indexOf x (insert_at k x h) = Some k.
Proof.
  revert h. induction k as [|k IH]; intros h Hx Hk.
  - simpl. now rewrite String.eqb_refl.
  - destruct h as [|z h]; [simpl in Hk; lia|]. simpl in Hx, Hk |- *.
    destruct (String.eqb z x); [discriminate Hx|].
    destruct (indexOf x h) eqn:E; [discriminate Hx|].
    rewrite IH; [reflexivity|exact E|lia].
Qed.

Lemma nth_error_insert_same x k r :
  k <= List.length r -> nth_error (insert_at k x r) k = Some x.
Proof.
  revert r. induction k as [|k IH]; intros r Hk; [reflexivity|].
  destruct r as [|z r]; [simpl in Hk; lia|]. simpl in Hk |- *.
  apply IH. lia.
Qed.

Lemma nth_error_insert_shift x k r j :
  k <= List.length r ->
  nth_error (insert_at k x r) (if (j <? k)%nat then j else S j) = nth_error r j.
Proof.
  revert r j. induction k as [|k IH]; intros r j Hk; [reflexivity|].
  destruct r as [|z r]; [simpl in Hk; lia|]. simpl in Hk.
  destruct j as [|j]; [reflexivity|].
  change (S j <? S k)%nat with (j <? k)%nat.
  specialize (IH r j ltac:(lia)).
  simpl insert_at. destruct (j <? k)%nat; exact IH.
Qed.

Lemma at_index_insert_shift x k r i :
  k <= List.length r ->
  at_index (insert_at k x r) (shift_index k i) = at_index r i.
Proof.
  intros Hk. destruct i as [j|]; [|reflexivity].
  now apply nth_error_insert_shift.
Qed.

Lemma is_row_insert x k r :
  is_cell x = true -> is_row r = true -> is_row (insert_at k x r) = true.
Proof.
  unfold is_row. intros Hx H. apply andb_true_iff in H as [_ H].
  rewrite insert_at_length. simpl.
  revert r H. induction k as [|k IH]; intros r H.
  - simpl. now rewrite Hx.
  - destruct r as [|z r]; simpl in *.
    + now rewrite Hx.
    + apply andb_true_iff in H as [Hz H]. now rewrite Hz, IH.
Qed.

(** A line of the table with the NAMESPACE column and the same line of the
    table without it are processed alike. *)
Lemma process_line_column_or_argument N k r nameIndex namespaceIndex m :
  is_cell N = true -> is_row r = true -> k <= List.length r ->
  process_line (Some k) (shift_index k nameIndex) None m
    (render_line (insert_at k N r)) =
  process_line namespaceIndex nameIndex (Some N) m (render_line r).
Proof.
  intros HN Hr Hk. rewrite !process_line_unfold.
  rewrite (split_ws_render_line _ (is_row_insert N k r HN Hr)).
  rewrite (split_ws_render_line _ Hr).
  rewrite (at_index_insert_shift _ _ _ _ Hk).
  unfold namespace_column. simpl at_index.
  now rewrite (nth_error_insert_same _ _ _ Hk).
Qed.

Lemma process_lines_column_or_argument N k nameIndex namespaceIndex rows :
  is_cell N = true ->
  Forall (fun r => is_row r = true /\ k <= List.length r) rows ->
  forall m,
    process_lines (Some k) (shift_index k nameIndex) None m
      (map render_line (map (insert_at k N) rows)) =
    process_lines namespaceIndex nameIndex (Some N) m (map render_line rows).
Proof.
  intros HN H. induction H as [|r rows [Hr Hk] _ IH]; intros m; simpl.
  - reflexivity.
  - rewrite (process_line_column_or_argument N k r nameIndex namespaceIndex m
               HN Hr Hk).
    destruct (process_line namespaceIndex nameIndex (Some N) m (render_line r));
      simpl; auto.
Qed.

End NamespaceColumn.

(** C5: take any table without NAMESPACE column and any cell [N].  The table
    with a NAMESPACE column added at some position [k], every line holding
    [N] in it, read with no namespace passed, and the table as it is, read
    with the namespace [N] passed, have the same outcome: the same catalog,
    or the same failure. *)
Theorem namespace_column_or_argument :
  forall header rows N k,
    is_cell N = true ->
    is_row header = true ->
    indexOf "NAMESPACE" header = None ->
    k <= List.length header ->
    Forall (fun r => is_row r = true /\ k <= List.length r) rows ->
    getServicesMap
      (render_table (insert_at k "NAMESPACE" header) (map (insert_at k N) rows))
      None =
    getServicesMap (render_table header rows) (Some N).
Proof.
  intros header rows N k HN Hh Hns Hk Hrows.
  assert (HrowsB : Forall (fun r => is_row r = true) rows).
  { eapply Forall_impl; [|exact Hrows]. now intros r [H _]. }
  assert (HrowsA : Forall (fun r => is_row r = true) (map (insert_at k N) rows)).
  { apply Forall_map. eapply Forall_impl; [|exact Hrows].
    intros r [H _]. now apply is_row_insert. }
  assert (HhA : is_row (insert_at k "NAMESPACE" header) = true)
    by now apply is_row_insert.
  rewrite !getServicesMap_unfold. unfold namespaceIndex_of, nameIndex_of.
  rewrite (table_headers_render _ _ HhA HrowsA), (data_lines_render _ _ HhA HrowsA).
  rewrite (table_headers_render _ _ Hh HrowsB), (data_lines_render _ _ Hh HrowsB).
  rewrite (indexOf_insert_same _ _ _ Hns Hk).
  rewrite (indexOf_insert_other "NAMESPACE" "NAME" k header) by (discriminate || exact Hk).
  now apply process_lines_column_or_argument.
Qed.

(** Scenario B: the row of scenario A, with and without its NAMESPACE cell. *)
Lemma namespace_column_or_argument_witness :
  getServicesMap
    ("NAMESPACE NAME READY" ++ nl ++
     "team-a dev-team-a-checkout-7f9c4d-x2k1p 1/1") None =
  getServicesMap
    ("NAME READY" ++ nl ++ "dev-team-a-checkout-7f9c4d-x2k1p 1/1")
    (Some "team-a").
Proof.
  apply (namespace_column_or_argument
           ["NAME"; "READY"] [["dev-team-a-checkout-7f9c4d-x2k1p"; "1/1"]]
           "team-a" 0); try reflexivity.
  - simpl. lia.
  - repeat constructor.
Defined.

(** * Further properties of [getServicesMap] *)

(** ** The environment prefix *)

Section EnvironmentPrefix.

Lemma strip_prefix_of_startsWith p s :
  startsWith p s = true -> exists rest, strip_prefix p s = Some rest.
Proof.
  rewrite strip_prefix_startsWith.
  destruct (strip_prefix p s) as [rest|]; [now exists rest|discriminate].
Qed.

Lemma strip_prefix_of_not_startsWith p s :
  startsWith p s = false -> strip_prefix p s = None.
Proof.
  rewrite strip_prefix_startsWith.
  destruct (strip_prefix p s); [discriminate|reflexivity].
Qed.

(** The three [startsWith] tests and the pattern [/^(dev-|qa-|stg-)/] agree:
    what the replace removes is the tag that the tests found, and its
    dash. *)
Lemma env_prefix_strip nameColumn e :
  env_prefix nameColumn = Some e ->
  nameColumn = (env_tag e ++ "-" ++ replace_first env_prefix_re nameColumn)%string.
Proof.
  unfold env_prefix. rewrite replace_first_env_prefix.
  destruct (startsWith "dev-" nameColumn) eqn:Hd.
  { intros [= <-]. apply strip_prefix_of_startsWith in Hd as [rest Hd].
    rewrite Hd. now apply strip_prefix_Some in Hd. }
  rewrite (strip_prefix_of_not_startsWith _ _ Hd).
  destruct (startsWith "qa-" nameColumn) eqn:Hq.
  { intros [= <-]. apply strip_prefix_of_startsWith in Hq as [rest Hq].
    rewrite Hq. now apply strip_prefix_Some in Hq. }
  rewrite (strip_prefix_of_not_startsWith _ _ Hq).
  destruct (startsWith "stg-" nameColumn) eqn:Hs; [|discriminate].
  intros [= <-]. apply strip_prefix_of_startsWith in Hs as [rest Hs].
  rewrite Hs. now apply strip_prefix_Some in Hs.
Qed.

End EnvironmentPrefix.

(** The environment under which a pod is stored is the tag its name starts
    with, and the name that goes on to the namespace strip is the pod name
    without that tag and its dash: the tests of lines 253-258 and the
    pattern of line 263 never disagree. *)
Theorem environment_tag_is_name_prefix :
  forall nameColumn e,
    env_prefix nameColumn = Some e ->
    nameColumn =
    (env_tag e ++ "-" ++ replace_first env_prefix_re nameColumn)%string.
Proof. exact env_prefix_strip. Qed.

Lemma environment_tag_is_name_prefix_witness :
  "stg-billing-api-5c9d-k2x" =
  (env_tag stg ++ "-" ++
   replace_first env_prefix_re "stg-billing-api-5c9d-k2x")%string.
Proof.
  apply (environment_tag_is_name_prefix "stg-billing-api-5c9d-k2x" stg).
  reflexivity.
Defined.

(** ** Splitting and joining on a character *)

Section SplitJoin.

Variable sep : ascii.

Let no_sep (p : string) : Prop :=
  all_chars (fun c => negb (Ascii.eqb c sep)) p = true.

Lemma split_not_nil s : split sep s <> [].
Proof.
  induction s as [|c s IH]; simpl; [discriminate|].
  destruct (Ascii.eqb c sep); [discriminate|].
  destruct (split sep s); [now elim IH|discriminate].
Qed.

Lemma split_parts_no_sep s : Forall no_sep (split sep s).
Proof.
  unfold no_sep. induction s as [|c s IH]; simpl.
  - now constructor.
  - destruct (Ascii.eqb c sep) eqn:E; [now constructor|].
    destruct (split sep s) as [|h t] eqn:Es;
      [exfalso; exact (split_not_nil s Es)|].
    inversion IH as [|? ? Hh Ht]; subst. simpl. constructor; [|exact Ht].
    simpl. now rewrite E, Hh.
Qed.

Lemma join_cons sepstr x y l :
  join sepstr (x :: y :: l) = (x ++ sepstr ++ join sepstr (y :: l))%string.
Proof. reflexivity. Qed.

Lemma join_split s : join (String sep EmptyString) (split sep s) = s.
Proof.
  induction s as [|c s IH]; simpl; [reflexivity|].
  destruct (Ascii.eqb_spec c sep) as [->|_].
  - destruct (split sep s) as [|h t] eqn:E;
      [exfalso; exact (split_not_nil s E)|].
    rewrite join_cons, IH. reflexivity.
  - destruct (split sep s) as [|h t] eqn:E;
      [exfalso; exact (split_not_nil s E)|].
    simpl cons_head. rewrite <- IH. now destruct t.
Qed.

Lemma string_app_assoc (a b c : string) :
  ((a ++ b) ++ c = a ++ (b ++ c))%string.
Proof. induction a as [|x a IH]; simpl; [reflexivity|now rewrite IH]. Qed.

Lemma join_app sepstr a b :
  a <> [] -> b <> [] ->
  join sepstr (a ++ b) = (join sepstr a ++ sepstr ++ join sepstr b)%string.
Proof.
  intros Ha Hb. induction a as [|x a IH]; [now elim Ha|].
  destruct a as [|y a].
  - destruct b as [|z b]; [now elim Hb|]. reflexivity.
  - change ((x :: y :: a) ++ b) with (x :: y :: (a ++ b)).
    rewrite !join_cons.
    change (y :: a ++ b) with ((y :: a) ++ b).
    rewrite IH by discriminate.
    now rewrite !string_app_assoc.
Qed.

End SplitJoin.

(** ** Name and id of a stored binding *)

Section NameAndId.

Lemma skipn_In (n : nat) (l : list string) x : In x (skipn n l) -> In x l.
Proof.
  revert l. induction n as [|n IH]; intros [|y l]; simpl; auto.
Qed.

Lemma slices_cover (parts : list string) :
  2 < List.length parts ->
  slice_init2 parts <> [] /\
  List.length (slice_last2 parts) = 2 /\
  parts = slice_init2 parts ++ slice_last2 parts.
Proof.
  intros H. unfold slice_init2, slice_last2. repeat split.
  - intros E. apply (f_equal (@List.length string)) in E.
    rewrite length_firstn in E. simpl in E. lia.
  - rewrite length_skipn. lia.
  - symmetry. apply firstn_skipn.
Qed.

(** Lines 276-277 cut the stripped name at its last but one dash: the
    service name, a dash and the id give the stripped name back, and the id
    has exactly two parts. *)
Lemma name_and_id modifiedName :
  2 < List.length (split dash modifiedName) ->
  (join "-" (slice_init2 (split dash modifiedName)) ++ "-" ++
   join "-" (slice_last2 (split dash modifiedName)))%string = modifiedName /\
  List.length
    (split dash (join "-" (slice_last2 (split dash modifiedName)))) = 2.
Proof.
  intros H. destruct (slices_cover _ H) as (Hi & Hl & Hcover). split.
  - rewrite <- (join_app "-") ; [|exact Hi|].
    + rewrite <- Hcover. apply (join_split dash).
    + intros E. rewrite E in Hl. discriminate.
  - change "-" with (String dash EmptyString).
    rewrite split_join; [exact Hl| |].
    + intros E. rewrite E in Hl. discriminate.
    + unfold slice_last2. apply Forall_forall. intros p Hp.
      apply skipn_In in Hp.
      exact (proj1 (Forall_forall _ _) (split_parts_no_sep dash _) p Hp).
Qed.

Lemma env_eqb_eq a b : env_eqb a b = true -> a = b.
Proof. destruct a, b; (reflexivity || discriminate). Qed.

Lemma binds_Some b s e d : binds b s e = Some d -> b = Some (s, e, d).
Proof.
  destruct b as [[[s' e'] d']|]; simpl; [|discriminate].
  destruct (String.eqb_spec s' s) as [->|_]; simpl; [|discriminate].
  destruct (env_eqb e' e) eqn:E; [|discriminate].
  apply env_eqb_eq in E as ->. now intros [= ->].
Qed.

Lemma last_binding_In bs s e d :
  last_binding bs s e = Some d -> In (Some (s, e, d)) bs.
Proof.
  induction bs as [|b bs IH]; simpl; [discriminate|].
  destruct (last_binding bs s e) as [d'|].
  - intros [= ->]. right. now apply IH.
  - intros H. left. now apply binds_Some.
Qed.

Lemma In_last_binding bs s e d :
  In (Some (s, e, d)) bs -> exists d', last_binding bs s e = Some d'.
Proof.
  induction bs as [|b bs IH]; simpl; [tauto|].
  intros [->|H].
  - destruct (last_binding bs s e) as [d'|]; [now exists d'|].
    exists d. simpl. rewrite String.eqb_refl. now destruct e.
  - destruct (IH H) as [d' Hd']. rewrite Hd'. now exists d'.
Qed.

(** Every binding of a returned catalog was bound by a data line. *)
Lemma binding_from_line podsData namespace m s e d :
  getServicesMap podsData namespace = Returned m ->
  lookup m s e = Some d ->
  exists line,
    In line (data_lines podsData) /\
    line_binding (namespaceIndex_of podsData) (nameIndex_of podsData)
      namespace line = Some (s, e, d).
Proof.
  rewrite getServicesMap_unfold. intros H Hl.
  rewrite (lookup_process_lines _ _ _ _ _ _ s e H) in Hl.
  destruct (last_binding _ s e) as [d'|] eqn:E; [|discriminate Hl].
  injection Hl as ->. apply last_binding_In, in_map_iff in E.
  destruct E as (line & E & Hin). now exists line.
Qed.

(** What a binding of a line is made of. *)
Lemma line_binding_inv namespaceIndex nameIndex namespace line s e d :
  line_binding namespaceIndex nameIndex namespace line = Some (s, e, d) ->
  exists nameColumn modifiedName,
    at_index (split_ws line) nameIndex = Some nameColumn /\
    env_prefix nameColumn = Some e /\
    strip_namespace (namespace_column namespace namespaceIndex (split_ws line))
      (replace_first env_prefix_re nameColumn) = Returned modifiedName /\
    2 < List.length (split dash modifiedName) /\
    s = join "-" (slice_init2 (split dash modifiedName)) /\
    id d = join "-" (slice_last2 (split dash modifiedName)) /\
    namespace_of d =
    namespace_column namespace namespaceIndex (split_ws line).
Proof.
  unfold line_binding.
  destruct (at_index (split_ws line) nameIndex) as [nameColumn|] eqn:Hn;
    [|discriminate].
  destruct (env_prefix nameColumn) as [e0|] eqn:He; [|discriminate].
  cbv zeta.
  destruct (strip_namespace _ _) as [modifiedName| |] eqn:Hs; try discriminate.
  destruct (Nat.ltb_spec 2 (List.length (split dash modifiedName)));
    [|discriminate].
  intros [= <- <- <-]. exists nameColumn, modifiedName.
  repeat split; try reflexivity; assumption.
Qed.

End NameAndId.

(** In a returned catalog every id is made of exactly two parts joined by
    one dash (lines 275-277), whatever the pod names were. *)
Theorem stored_id_has_two_parts :
  forall podsData namespace m s e d,
    getServicesMap podsData namespace = Returned m ->
    lookup m s e = Some d ->
    List.length (split dash (id d)) = 2.
Proof.
  intros podsData namespace m s e d H Hl.
  destruct (binding_from_line _ _ _ _ _ _ H Hl) as (line & _ & Hb).
  apply line_binding_inv in Hb
    as (nameColumn & modifiedName & _ & _ & _ & Hparts & _ & -> & _).
  exact (proj2 (name_and_id _ Hparts)).
Qed.

Lemma stored_id_has_two_parts_witness :
  List.length (split dash "7f9c4d-x2k1p") = 2.
Proof.
  apply (stored_id_has_two_parts
           ("NAME" ++ nl ++ "dev-shop-cart-api-7f9c4d-x2k1p") None
           [("shop-cart-api",
             mkEnvs (Some (mkDetails "7f9c4d-x2k1p" None)) None None)]
           "shop-cart-api" dev (mkDetails "7f9c4d-x2k1p" None));
    reflexivity.
Defined.

(** The namespace stored with a binding: the namespace passed to
    [getServicesMap] when there is one, for every binding; otherwise the cell
    of a data line under the NAMESPACE column (line 248). *)
Theorem stored_namespace :
  forall podsData namespace m s e d,
    getServicesMap podsData namespace = Returned m ->
    lookup m s e = Some d ->
    match namespace with
    | Some n => namespace_of d = Some n
    | None =>
        exists line,
          In line (data_lines podsData) /\
          namespace_of d =
          at_index (split_ws line) (namespaceIndex_of podsData)
    end.
Proof.
  intros podsData namespace m s e d H Hl.
  destruct (binding_from_line _ _ _ _ _ _ H Hl) as (line & Hin & Hb).
  apply line_binding_inv in Hb
    as (nameColumn & modifiedName & _ & _ & _ & _ & _ & _ & Hns).
  destruct namespace as [n|]; [exact Hns|].
  exists line. split; [exact Hin|exact Hns].
Qed.

Lemma stored_namespace_witness :
  namespace_of (mkDetails "7f9c4d-x2k1p" (Some "team-a")) = Some "team-a".
Proof.
  apply (stored_namespace
           ("NAME READY" ++ nl ++ "dev-team-a-web-7f9c4d-x2k1p 1/1")
           (Some "team-a")
           [("web", mkEnvs (Some (mkDetails "7f9c4d-x2k1p" (Some "team-a")))
                      None None)]
           "web" dev (mkDetails "7f9c4d-x2k1p" (Some "team-a")));
    reflexivity.
Defined.

(** ** The entries of a returned catalog *)

Section CatalogEntries.

Lemma map_set_absent k v m :
  map_has k m = false -> map_set k v m = m ++ [(k, v)].
Proof.
  unfold map_has. induction m as [|[k0 v0] m IH]; simpl; [reflexivity|].
  destruct (String.eqb k0 k); [discriminate|].
  intros H. now rewrite IH.
Qed.

Lemma assign_env_last k e d v m :
  map_has k m = false ->
  assign_env k e d (m ++ [(k, v)]) = m ++ [(k, set_env e d v)].
Proof.
  unfold map_has. induction m as [|[k0 v0] m IH]; simpl.
  - now rewrite String.eqb_refl.
  - destruct (String.eqb k0 k); [discriminate|].
    intros H. now rewrite IH.
Qed.

Lemma bound_set_env e d o : bound_somewhere (set_env e d o).
Proof. exists e, d. rewrite get_set_env. now destruct e. Qed.

Lemma assign_env_bound k e d m :
  Forall (fun kv => bound_somewhere (snd kv)) m ->
  Forall (fun kv => bound_somewhere (snd kv)) (assign_env k e d m).
Proof.
  induction 1 as [|[k0 v0] m Hv Hm IH]; simpl; [constructor|].
  destruct (String.eqb k0 k); constructor; auto. apply bound_set_env.
Qed.

Lemma record_service_bound e nsc modifiedName m :
  Forall (fun kv => bound_somewhere (snd kv)) m ->
  Forall (fun kv => bound_somewhere (snd kv))
    (record_service e nsc modifiedName m).
Proof.
  intros H. unfold record_service.
  destruct (2 <? List.length (split dash modifiedName))%nat; [|exact H].
  set (k := join "-" (slice_init2 (split dash modifiedName))).
  destruct (map_has k m) eqn:E; simpl.
  - now apply assign_env_bound.
  - rewrite (map_set_absent _ _ _ E), (assign_env_last _ _ _ _ _ E).
    apply Forall_app. split; [exact H|].
    constructor; [apply bound_set_env|constructor].
Qed.

Lemma process_lines_bound namespaceIndex nameIndex namespace lines :
  forall m m',
    process_lines namespaceIndex nameIndex namespace m lines = Returned m' ->
    Forall (fun kv => bound_somewhere (snd kv)) m ->
    Forall (fun kv => bound_somewhere (snd kv)) m'.
Proof.
  induction lines as [|line lines IH]; intros m m'; simpl.
  - now intros [= <-].
  - destruct (process_line namespaceIndex nameIndex namespace m line)
      as [m1| |] eqn:E; simpl; try discriminate.
    intros H Hm. apply (IH _ _ H). revert E.
    rewrite process_line_unfold.
    destruct (at_index (split_ws line) nameIndex) as [nameColumn|];
      [|discriminate].
    destruct (env_prefix nameColumn) as [e|]; [|now intros [= <-]].
    cbv zeta. destruct (strip_namespace _ _); simpl; try discriminate.
    intros [= <-]. now apply record_service_bound.
Qed.

Lemma map_get_In k m o : map_get k m = Some o -> In (k, o) m.
Proof.
  induction m as [|[k0 v0] m IH]; simpl; [discriminate|].
  destruct (String.eqb_spec k0 k) as [->|_].
  - intros [= ->]. now left.
  - intros H. right. now apply IH.
Qed.

Lemma getServicesMap_bound podsData namespace m :
  getServicesMap podsData namespace = Returned m ->
  Forall (fun kv => bound_somewhere (snd kv)) m.
Proof.
  rewrite getServicesMap_unfold. intros H.
  apply (process_lines_bound _ _ _ _ _ _ H). constructor.
Qed.

(** A service is a key of the returned catalog exactly when some data line
    binds it. *)
Lemma key_iff_bound_by_line podsData namespace m s :
  getServicesMap podsData namespace = Returned m ->
  In s (map_keys m) <->
  exists line e d,
    In line (data_lines podsData) /\
    line_binding (namespaceIndex_of podsData) (nameIndex_of podsData)
      namespace line = Some (s, e, d).
Proof.
  intros H. split.
  - intros Hin. apply map_has_In in Hin. unfold map_has in Hin.
    destruct (map_get s m) as [o|] eqn:Eo; [|discriminate].
    pose proof (getServicesMap_bound _ _ _ H) as Hb.
    rewrite Forall_forall in Hb.
    destruct (Hb _ (map_get_In _ _ _ Eo)) as (e & d & Hd).
    assert (Hl : lookup m s e = Some d) by (unfold lookup; now rewrite Eo).
    destruct (binding_from_line _ _ _ _ _ _ H Hl) as (line & Hline & Hbind).
    now exists line, e, d.
  - intros (line & e & d & Hline & Hbind).
    rewrite getServicesMap_unfold in H.
    pose proof (lookup_process_lines _ _ _ _ _ _ s e H) as Hl.
    destruct (In_last_binding
                (map (line_binding (namespaceIndex_of podsData)
                        (nameIndex_of podsData) namespace)
                   (data_lines podsData)) s e d) as [d' Hd'].
    { apply in_map_iff. now exists line. }
    rewrite Hd' in Hl. apply map_has_In. unfold map_has.
    unfold lookup in Hl. now destruct (map_get s m).
Qed.

End CatalogEntries.

(** No service of a returned catalog is empty: under every key at least one
    of [dev], [qa], [stg] is bound (the object created at line 279 is given a
    property at line 281 before anything else happens). *)
Theorem every_service_has_an_environment :
  forall podsData namespace m s o,
    getServicesMap podsData namespace = Returned m ->
    In (s, o) m ->
    exists e d, get_env e o = Some d.
Proof.
  intros podsData namespace m s o H Hin.
  pose proof (getServicesMap_bound _ _ _ H) as Hb.
  rewrite Forall_forall in Hb. exact (Hb _ Hin).
Qed.

Lemma every_service_has_an_environment_witness :
  exists e d,
    get_env e (mkEnvs None (Some (mkDetails "22-bb" None)) None) = Some d.
Proof.
  apply (every_service_has_an_environment
           ("NAME" ++ nl ++ "qa-api-22-bb") None
           [("api", mkEnvs None (Some (mkDetails "22-bb" None)) None)] "api");
    [reflexivity | now left].
Defined.

(** The service list offered to the user holds exactly the services that
    some data line resolves to: no pod with a well-formed name is left out
    and no name is made up. *)
Theorem listed_iff_bound_by_line :
  forall podsData namespace m s,
    getServicesMap podsData namespace = Returned m ->
    In s (listServiceNames m) <->
    exists line e d,
      In line (data_lines podsData) /\
      line_binding (namespaceIndex_of podsData) (nameIndex_of podsData)
        namespace line = Some (s, e, d).
Proof.
  intros podsData namespace m s H.
  rewrite <- (key_iff_bound_by_line _ _ _ _ H). unfold listServiceNames.
  pose proof (CodeUnitSort.Permuted_sort (map_keys m)) as Hp. split.
  - apply Permutation_in. now apply Permutation_sym.
  - now apply Permutation_in.
Qed.

Lemma listed_iff_bound_by_line_witness :
  In "api" (listServiceNames
              [("web", mkEnvs (Some (mkDetails "11-aa" None)) None None);
               ("api", mkEnvs None (Some (mkDetails "22-bb" None)) None)]).
Proof.
  apply (listed_iff_bound_by_line
           ("NAME" ++ nl ++ "dev-web-11-aa" ++ nl ++ "qa-api-22-bb") None
           [("web", mkEnvs (Some (mkDetails "11-aa" None)) None None);
            ("api", mkEnvs None (Some (mkDetails "22-bb" None)) None)]
           "api" eq_refl).
  exists "qa-api-22-bb", qa, (mkDetails "22-bb" None).
  split; [right; now left | reflexivity].
Defined.

(** ** The order of the data lines *)

Section LineOrder.

Variables (namespaceIndex nameIndex : option nat) (namespace : option string).

Lemma process_line_returns m line :
  (exists m', process_line namespaceIndex nameIndex namespace m line
              = Returned m') <->
  line_returns namespaceIndex nameIndex namespace line.
Proof.
  rewrite process_line_unfold. unfold line_returns.
  destruct (at_index (split_ws line) nameIndex) as [nameColumn|].
  - destruct (env_prefix nameColumn) as [e|].
    + cbv zeta. destruct (strip_namespace _ _) as [x| |]; simpl.
      * split; [intros _; now exists x|intros _; eexists; reflexivity].
      * split; [intros [m' H]; discriminate|intros [x H]; discriminate].
      * split; [intros [m' H]; discriminate|intros [x H]; discriminate].
    + split; [trivial|intros _; now exists m].
  - split; [intros [m' H]; discriminate|tauto].
Qed.

Lemma process_lines_returns lines :
  forall m,
    (exists m', process_lines namespaceIndex nameIndex namespace m lines
                = Returned m') <->
    Forall (line_returns namespaceIndex nameIndex namespace) lines.
Proof.
  induction lines as [|line lines IH]; intros m; simpl.
  - split; [constructor|intros _; now exists m].
  - split.
    + intros [m' H].
      destruct (process_line namespaceIndex nameIndex namespace m line)
        as [m1| |] eqn:E; simpl in H; try discriminate.
      constructor.
      * apply (process_line_returns m). now exists m1.
      * apply (IH m1). now exists m'.
    + intros H. inversion H as [|? ? Hl Hls]; subst.
      apply (process_line_returns m) in Hl as [m1 Hl]. rewrite Hl. simpl.
      now apply IH.
Qed.

End LineOrder.

Section SortedLists.

Lemma string_ltb_irrefl a : String.ltb a a = false.
Proof.
  unfold String.ltb. pose proof (String.compare_antisym a a) as H.
  destruct (String.compare a a); simpl in H; (reflexivity || discriminate).
Qed.

Lemma string_ltb_asym a b : String.ltb a b = true -> String.ltb b a = false.
Proof.
  unfold String.ltb. rewrite (String.compare_antisym b a).
  destruct (String.compare a b); simpl; (reflexivity || discriminate).
Qed.

(** Two strictly ascending lists with the same elements are equal. *)
Lemma strictly_sorted_unique l1 :
  forall l2,
    StronglySorted (fun a b => String.ltb a b = true) l1 ->
    StronglySorted (fun a b => String.ltb a b = true) l2 ->
    (forall x, In x l1 <-> In x l2) ->
    l1 = l2.
Proof.
  induction l1 as [|a l1 IH]; intros [|b l2] H1 H2 Hin.
  - reflexivity.
  - exfalso. apply (proj2 (Hin b)). now left.
  - exfalso. apply (proj1 (Hin a)). now left.
  - inversion H1 as [|? ? Hs1 Ha]; inversion H2 as [|? ? Hs2 Hb]; subst.
    rewrite Forall_forall in Ha, Hb.
    assert (Eab : a = b).
    { destruct (proj1 (Hin a) (or_introl eq_refl)) as [E|Ia]; [now symmetry|].
      destruct (proj2 (Hin b) (or_introl eq_refl)) as [E|Ib]; [exact E|].
      pose proof (string_ltb_asym _ _ (Hb _ Ia)) as C.
      rewrite (Ha _ Ib) in C. discriminate. }
    subst b. f_equal. apply IH; try assumption.
    intros x. split; intros Hx.
    + destruct (proj1 (Hin x) (or_intror Hx)) as [E|I]; [|exact I].
      subst x. pose proof (Ha _ Hx) as C. rewrite string_ltb_irrefl in C.
      discriminate.
    + destruct (proj2 (Hin x) (or_intror Hx)) as [E|I]; [|exact I].
      subst x. pose proof (Hb _ Hx) as C. rewrite string_ltb_irrefl in C.
      discriminate.
Qed.

End SortedLists.

(** The service list does not depend on the order in which the cluster
    reports the pods: the same data lines in another order give a catalog
    too, and the same list of services. *)
Theorem service_list_ignores_line_order :
  forall podsData podsData' namespace m,
    table_headers podsData' = table_headers podsData ->
    Permutation (data_lines podsData) (data_lines podsData') ->
    getServicesMap podsData namespace = Returned m ->
    exists m',
      getServicesMap podsData' namespace = Returned m' /\
      listServiceNames m' = listServiceNames m.
Proof.
  intros podsData podsData' namespace m Hh Hp H.
  assert (Hidx : namespaceIndex_of podsData' = namespaceIndex_of podsData /\
                 nameIndex_of podsData' = nameIndex_of podsData).
  { unfold namespaceIndex_of, nameIndex_of. now rewrite Hh. }
  destruct Hidx as [Hns Hname].
  assert (Hret : exists m', getServicesMap podsData' namespace = Returned m').
  { rewrite getServicesMap_unfold, Hns, Hname.
    apply process_lines_returns.
    apply (Permutation_Forall Hp).
    apply (process_lines_returns _ _ _ _ []). exists m.
    now rewrite <- getServicesMap_unfold. }
  destruct Hret as [m' H']. exists m'. split; [exact H'|].
  apply strictly_sorted_unique.
  - exact (proj1 (listServiceNames_sorted _ (getServicesMap_keys _ _ _ H'))).
  - exact (proj1 (listServiceNames_sorted _ (getServicesMap_keys _ _ _ H))).
  - intros s.
    assert (L : forall pd mm, getServicesMap pd namespace = Returned mm ->
              In s (listServiceNames mm) <-> In s (map_keys mm)).
    { intros pd mm _. unfold listServiceNames.
      pose proof (CodeUnitSort.Permuted_sort (map_keys mm)) as P. split.
      - apply Permutation_in. now apply Permutation_sym.
      - now apply Permutation_in. }
    rewrite (L _ _ H'), (L _ _ H).
    rewrite (key_iff_bound_by_line _ _ _ _ H'), (key_iff_bound_by_line _ _ _ _ H).
    rewrite Hns, Hname.
    split; intros (line & e & d & Hin & Hb); exists line, e, d;
      (split; [|exact Hb]).
    + apply (Permutation_in _ (Permutation_sym Hp)), Hin.
    + apply (Permutation_in _ Hp), Hin.
Qed.

Lemma service_list_ignores_line_order_witness :
  exists m',
    getServicesMap ("NAME" ++ nl ++ "qa-api-22-bb" ++ nl ++ "dev-web-11-aa")
      None = Returned m' /\
    listServiceNames m' =
    listServiceNames
      [("web", mkEnvs (Some (mkDetails "11-aa" None)) None None);
       ("api", mkEnvs None (Some (mkDetails "22-bb" None)) None)].
Proof.
  apply (service_list_ignores_line_order
           ("NAME" ++ nl ++ "dev-web-11-aa" ++ nl ++ "qa-api-22-bb")
           ("NAME" ++ nl ++ "qa-api-22-bb" ++ nl ++ "dev-web-11-aa") None);
    try reflexivity.
  apply perm_swap.
Defined.

(** ** Aligned columns *)

Section AlignedColumns.

Lemma is_gap_spaces g : is_gap g = true -> all_chars is_space g = true.
Proof.
  unfold is_gap. intros H. apply andb_true_iff in H as [_ H].
  eapply all_chars_weaken; [|exact H].
  intros c Hc. now apply andb_true_iff in Hc as [Hc _].
Qed.

Lemma is_gap_no_LF g : is_gap g = true -> all_chars not_LF g = true.
Proof.
  unfold is_gap. intros H. apply andb_true_iff in H as [_ H].
  eapply all_chars_weaken; [|exact H].
  intros c Hc. now apply andb_true_iff in Hc as [_ Hc].
Qed.

(** White space after a cell ends the cell; more white space is skipped. *)
Lemma split_ws_gap_skip g s :
  all_chars is_space g = true ->
  starts_nonspace s = true ->
  split_ws_from true (g ++ s) = split_ws_from false s.
Proof.
  intros Hg Hs. induction g as [|c g IH]; simpl.
  - now apply split_ws_gap.
  - simpl in Hg. apply andb_true_iff in Hg as [Hc Hg]. rewrite Hc. auto.
Qed.

Lemma split_ws_cell_gap t g s :
  all_chars not_space t = true ->
  is_gap g = true ->
  starts_nonspace s = true ->
  split_ws_from false (t ++ g ++ s) = t :: split_ws_from false s.
Proof.
  intros Ht Hg Hs. induction t as [|c t IH]; simpl.
  - pose proof (is_gap_spaces _ Hg) as Hsp.
    destruct g as [|a g]; [discriminate Hg|]. simpl in Hsp |- *.
    apply andb_true_iff in Hsp as [Ha Hsp]. rewrite Ha. f_equal.
    now apply split_ws_gap_skip.
  - simpl in Ht. apply andb_true_iff in Ht as [Hc Ht]. unfold not_space in Hc.
    apply negb_true_iff in Hc. rewrite Hc, (IH Ht). reflexivity.
Qed.

Lemma padded_line_starts c rest :
  is_cell c = true -> starts_nonspace (padded_line c rest) = true.
Proof.
  intros Hc. destruct rest as [|[g c'] rest]; simpl.
  - now apply is_cell_starts.
  - now apply starts_nonspace_app, is_cell_starts.
Qed.

Lemma padded_line_ends rest :
  forall c,
    is_padded (c, rest) = true -> ends_nonspace (padded_line c rest) = true.
Proof.
  unfold is_padded. simpl.
  induction rest as [|[g c'] rest IH]; intros c H; simpl in *.
  - rewrite andb_true_r in H. now apply is_cell_ends.
  - apply andb_true_iff in H as [_ H]. apply andb_true_iff in H as [H Hr].
    apply andb_true_iff in H as [_ Hc'].
    apply ends_nonspace_app, ends_nonspace_app, IH. now rewrite Hc'.
Qed.

Lemma padded_line_no_LF rest :
  forall c,
    is_padded (c, rest) = true -> all_chars not_LF (padded_line c rest) = true.
Proof.
  unfold is_padded. simpl.
  induction rest as [|[g c'] rest IH]; intros c H; simpl in *.
  - rewrite andb_true_r in H.
    exact (all_chars_weaken _ _ _ not_space_not_LF (is_cell_nonspace _ H)).
  - apply andb_true_iff in H as [Hc H]. apply andb_true_iff in H as [H Hr].
    apply andb_true_iff in H as [Hg Hc'].
    rewrite !all_chars_app.
    rewrite (all_chars_weaken _ _ _ not_space_not_LF (is_cell_nonspace _ Hc)).
    rewrite (is_gap_no_LF _ Hg). simpl. apply IH. now rewrite Hc'.
Qed.

(** The cells of an aligned line are read back, whatever the width of the
    white space between them. *)
Lemma split_ws_padded_line rest :
  forall c,
    is_padded (c, rest) = true ->
    split_ws (padded_line c rest) = padded_cells (c, rest).
Proof.
  unfold is_padded, padded_cells, split_ws. simpl.
  induction rest as [|[g c'] rest IH]; intros c H; simpl in *.
  - rewrite andb_true_r in H. now apply split_ws_last, is_cell_nonspace.
  - apply andb_true_iff in H as [Hc H]. apply andb_true_iff in H as [H Hr].
    apply andb_true_iff in H as [Hg Hc'].
    rewrite (split_ws_cell_gap _ _ _ (is_cell_nonspace _ Hc) Hg
               (padded_line_starts _ _ Hc')).
    f_equal. apply IH. now rewrite Hc'.
Qed.

Lemma split_ws_padded l :
  is_padded l = true ->
  split_ws (padded_line (fst l) (snd l)) = padded_cells l.
Proof. destruct l as [c rest]. apply split_ws_padded_line. Qed.

Lemma padded_cells_row l : is_padded l = true -> is_row (padded_cells l) = true.
Proof.
  destruct l as [c rest]. unfold is_padded, is_row, padded_cells. simpl.
  intros H. apply andb_true_iff in H as [Hc H]. rewrite Hc. simpl.
  induction rest as [|[g c'] rest IH]; simpl in *; [reflexivity|].
  apply andb_true_iff in H as [H Hr]. apply andb_true_iff in H as [_ Hc'].
  now rewrite Hc', IH.
Qed.

(** The lines of a text whose lines begin and end with a character that is
    no white space. *)
Lemma table_lines_join lines :
  lines <> [] ->
  Forall (fun l => starts_nonspace l = true /\ ends_nonspace l = true /\
                   all_chars not_LF l = true) lines ->
  table_lines (join nl lines) = lines.
Proof.
  intros Hne H. unfold table_lines. rewrite trim_id.
  - apply (split_join LF); [exact Hne|].
    eapply Forall_impl; [|exact H]. now intros l (_ & _ & Hl).
  - destruct lines as [|l lines]; [now elim Hne|].
    apply join_starts. inversion H as [|? ? (Hs & _) _]. exact Hs.
  - apply join_nl_ends; [exact Hne|].
    eapply Forall_impl; [|exact H]. now intros l (_ & Hl & _).
Qed.

Lemma process_lines_same_cells namespaceIndex nameIndex namespace
    (A : Type) (f g : A -> string) (rows : list A) :
  Forall (fun r => split_ws (f r) = split_ws (g r)) rows ->
  forall m,
    process_lines namespaceIndex nameIndex namespace m (map f rows) =
    process_lines namespaceIndex nameIndex namespace m (map g rows).
Proof.
  induction 1 as [|r rows Hr _ IH]; intros m; simpl; [reflexivity|].
  rewrite !process_line_unfold, Hr.
  destruct (at_index (split_ws (g r)) nameIndex) as [nameColumn|];
    [|reflexivity].
  destruct (env_prefix nameColumn); simpl; [|apply IH].
  destruct (strip_namespace _ _); simpl; auto.
Qed.

End AlignedColumns.

(** The width of the white space between the columns does not matter: a
    table whose cells are aligned with any runs of blanks or tabs has the
    outcome of the same table written with single spaces. *)
Theorem column_alignment_is_ignored :
  forall header rows namespace,
    is_padded header = true ->
    Forall (fun r => is_padded r = true) rows ->
    getServicesMap (padded_table header rows) namespace =
    getServicesMap
      (render_table (padded_cells header) (map padded_cells rows)) namespace.
Proof.
  intros header rows namespace Hh Hr.
  assert (Hall : Forall (fun r => is_padded r = true) (header :: rows))
    by now constructor.
  assert (Hlines : table_lines (padded_table header rows) =
                   map (fun l => padded_line (fst l) (snd l)) (header :: rows)).
  { unfold padded_table. apply table_lines_join; [discriminate|].
    apply Forall_map. eapply Forall_impl; [|exact Hall].
    intros [c rest] H. simpl. repeat split.
    - apply padded_line_starts. unfold is_padded in H. simpl in H.
      now apply andb_true_iff in H as [H _].
    - now apply padded_line_ends.
    - now apply padded_line_no_LF. }
  assert (HrowsB : Forall (fun r => is_row r = true) (map padded_cells rows)).
  { apply Forall_map. eapply Forall_impl; [|exact Hr].
    intros r. apply padded_cells_row. }
  pose proof (padded_cells_row _ Hh) as HhB.
  rewrite !getServicesMap_unfold.
  unfold namespaceIndex_of, nameIndex_of, table_headers, data_lines.
  rewrite Hlines, (table_lines_render _ _ HhB HrowsB). simpl hd. simpl tl.
  rewrite (split_ws_padded _ Hh), (split_ws_render_line _ HhB).
  rewrite map_map. apply process_lines_same_cells.
  eapply Forall_impl; [|exact Hr].
  intros r H. rewrite (split_ws_padded _ H).
  symmetry. apply split_ws_render_line. now apply padded_cells_row.
Qed.

Lemma column_alignment_is_ignored_witness :
  getServicesMap
    ("NAMESPACE   NAME                      READY" ++ nl ++
     "team-a      dev-team-a-web-11-aa      1/1") None =
  getServicesMap
    ("NAMESPACE NAME READY" ++ nl ++ "team-a dev-team-a-web-11-aa 1/1") None.
Proof.
  apply (column_alignment_is_ignored
           ("NAMESPACE", [("   ", "NAME"); ("                      ", "READY")])
           [("team-a", [("      ", "dev-team-a-web-11-aa"); ("      ", "1/1")])]
           None); [reflexivity|].
  repeat constructor.
Defined.

(** ** Namespaces without pattern syntax *)

(** For a namespace without pattern syntax character (lower-case letters,
    digits and dashes, as Kubernetes has them), lines 266-271 remove the
    namespace and its dash when the name begins with them, once, and change
    nothing else: an occurrence further in the name stays. *)
Theorem plain_namespace_is_stripped_once :
  forall ns s,
    plain ns = true -> ns <> EmptyString ->
    strip_namespace (Some ns) s =
    Returned match strip_prefix (ns ++ "-") s with
             | Some rest => rest
             | None => s
             end.
Proof. exact strip_namespace_plain. Qed.

Lemma plain_namespace_is_stripped_once_witness :
  strip_namespace (Some "team-a") "team-a-checkout-team-a-7f9c4d-x2k1p" =
  Returned "checkout-team-a-7f9c4d-x2k1p".
Proof.
  apply (plain_namespace_is_stripped_once "team-a"
           "team-a-checkout-team-a-7f9c4d-x2k1p");
    [reflexivity | discriminate].
Defined.

Lemma strip_namespace_returns nsc s :
  match nsc with Some ns => plain ns = true | None => True end ->
  exists x, strip_namespace nsc s = Returned x.
Proof.
  destruct nsc as [ns|]; [|intros _; now exists s].
  intros Hp. destruct ns as [|c ns]; [now exists s|].
  rewrite (strip_namespace_plain _ s Hp); [eexists; reflexivity|discriminate].
Qed.

(** [getServicesMap] returns a catalog, whatever the pod names are, as soon
    as every data line reaches the NAME column and the namespace of every
    line (the one passed, or the cell under NAMESPACE) has no pattern syntax
    character; Kubernetes namespaces, made of lower-case letters, digits and
    dashes, are of that kind. *)
Theorem returns_on_plain_namespaces :
  forall podsData namespace,
    Forall
      (fun line =>
         at_index (split_ws line) (nameIndex_of podsData) <> None /\
         match namespace_column namespace (namespaceIndex_of podsData)
                 (split_ws line) with
         | Some ns => plain ns = true
         | None => True
         end)
      (data_lines podsData) ->
    exists m, getServicesMap podsData namespace = Returned m.
Proof.
  intros podsData namespace H. rewrite getServicesMap_unfold.
  apply process_lines_returns.
  eapply Forall_impl; [|exact H].
  intros line [Hname Hns]. unfold line_returns.
  destruct (at_index (split_ws line) (nameIndex_of podsData)) as [nameColumn|];
    [|now elim Hname].
  destruct (env_prefix nameColumn); [|exact I].
  now apply strip_namespace_returns.
Qed.

Lemma returns_on_plain_namespaces_witness :
  exists m,
    getServicesMap
      ("NAMESPACE NAME" ++ nl ++ "kube-system coredns-5d78c-abcde" ++ nl ++
       "team-a dev-team-a-web-11-aa") None = Returned m.
Proof.
  apply (returns_on_plain_namespaces
           ("NAMESPACE NAME" ++ nl ++ "kube-system coredns-5d78c-abcde" ++ nl ++
            "team-a dev-team-a-web-11-aa") None).
  vm_compute.
  constructor; [split; [discriminate|reflexivity]|].
  constructor; [split; [discriminate|reflexivity]|].
  constructor.
Defined.

(** * The spinner *)

Section SpinnerProperties.

Lemma clear_only h : Spinner.clear h [h] = [].
Proof. unfold Spinner.clear. simpl. now rewrite Nat.eqb_refl. Qed.

Lemma spinner_step_timers s c :
  timers_match s -> timers_match (spinner_step s c).
Proof.
  unfold timers_match. destruct c as [msg|success|h]; simpl.
  - unfold Spinner.start. destruct (intervalId s) as [h|] eqn:E; simpl.
    + now rewrite E.
    + now intros ->.
  - unfold Spinner.stop. destruct (intervalId s) as [h|] eqn:E; simpl.
    + intros ->. apply clear_only.
    + now rewrite E.
  - unfold Spinner.fire. now destruct (existsb _ _).
Qed.

Lemma fire_stopped h s :
  timers_match s -> intervalId s = None -> Spinner.fire h s = s.
Proof.
  unfold timers_match, Spinner.fire. intros H E. rewrite E in H.
  now rewrite H.
Qed.

Lemma dots_snoc n : (dots n ++ ".")%string = dots (S n).
Proof. induction n as [|n IH]; simpl in *; [reflexivity|now rewrite IH]. Qed.

Lemma string_app_nil (a : string) : (a ++ "")%string = a.
Proof. induction a as [|c a IH]; simpl; [reflexivity|now rewrite IH]. Qed.

End SpinnerProperties.

(** Whatever is called, and in whatever order, the spinner has at most one
    interval set, the one it remembers; once stopped, none is left and a
    late timer writes nothing. *)
Theorem spinner_has_one_timer :
  forall calls s,
    timers_match s ->
    let s' := fold_left spinner_step calls s in
    timers_match s' /\
    (intervalId s' = None ->
     live_timers s' = [] /\ forall h, Spinner.fire h s' = s').
Proof.
  intros calls s H. cbv zeta.
  assert (Hm : timers_match (fold_left spinner_step calls s)).
  { revert s H. induction calls as [|c calls IH]; intros s H; simpl.
    - exact H.
    - apply IH. now apply spinner_step_timers. }
  split; [exact Hm|]. intros E. split.
  - unfold timers_match in Hm. now rewrite E in Hm.
  - intros h. now apply fire_stopped.
Qed.

Lemma spinner_has_one_timer_witness :
  timers_match
    (fold_left spinner_step
       [Start "Loading services"; Fire 0; Start "again"; Stop true; Stop false;
        Fire 0]
       (mkSession None "" [] 0 [] [] [])).
Proof.
  exact (proj1 (spinner_has_one_timer
                  [Start "Loading services"; Fire 0; Start "again"; Stop true;
                   Stop false; Fire 0]
                  (mkSession None "" [] 0 [] [] []) eq_refl)).
Defined.

Section SpinnerCycles.

Lemma concat_cons x l :
  String.concat "" (x :: l) = (x ++ String.concat "" l)%string.
Proof.
  destruct l as [|y l]; simpl; [now rewrite string_app_nil|reflexivity].
Qed.

(** The text of the channel follows the reading of the calls, from any
    state of the spinner on. *)
Lemma spinner_follows_cycles calls :
  forall s h running pre,
    timers_match s -> tracks s h running ->
    channel_text s = (pre ++ begun_text running)%string ->
    channel_text (fold_left spinner_step calls s) =
    (pre ++
     String.concat "" (map cycle_text (fst (cycles_of h running calls))) ++
     begun_text (snd (cycles_of h running calls)))%string /\
    (intervalId (fold_left spinner_step calls s) = None <->
     snd (cycles_of h running calls) = None).
Proof.
  induction calls as [|c calls IH]; intros s h running pre Hm Ht Htext.
  - simpl. split; [exact Htext|].
    destruct running as [[msg n]|]; simpl in Ht.
    + destruct Ht as [-> _]. split; discriminate.
    + destruct Ht as [-> _]. split; reflexivity.
  - pose proof (spinner_step_timers s c Hm) as Hm'.
    cbn [fold_left]. unfold timers_match in Hm.
    destruct c as [msg|success|h']; destruct running as [[msg0 n]|];
      cbn [cycles_of tracks] in *.
    + (* a start while running *)
      destruct Ht as (Hi & Hn & Hmsg).
      assert (E : spinner_step s (Start msg) = s)
        by (simpl; unfold Spinner.start; now rewrite Hi).
      rewrite E in *. apply IH; [exact Hm'| |exact Htext].
      simpl. auto.
    + (* a start *)
      destruct Ht as (Hi & Hn).
      apply IH; [exact Hm'| |].
      * simpl. unfold Spinner.start. rewrite Hi. simpl. now rewrite Hn.
      * simpl. unfold Spinner.start. rewrite Hi. unfold channel_text in *.
        simpl. rewrite Htext. simpl. now rewrite !string_app_nil.
    + (* a stop *)
      destruct Ht as (Hi & Hn & Hmsg).
      destruct (IH (spinner_step s (Stop success)) (S h) None
                  (pre ++ cycle_text (msg0, n, success))%string Hm')
        as [Et Ei].
      * simpl. unfold Spinner.stop. rewrite Hi. simpl. auto.
      * simpl. unfold Spinner.stop. rewrite Hi. unfold channel_text in *.
        simpl. rewrite Htext. simpl.
        now rewrite string_app_nil, !string_app_assoc.
      * split; [|exact Ei].
        rewrite Et. cbn [fst snd map]. rewrite concat_cons.
        now rewrite !string_app_assoc.
    + (* a stop while stopped *)
      destruct Ht as (Hi & Hn).
      assert (E : spinner_step s (Stop success) = s)
        by (simpl; unfold Spinner.stop; now rewrite Hi).
      rewrite E in *. apply IH; [exact Hm'| |exact Htext].
      simpl. auto.
    + (* a firing while running *)
      destruct Ht as (Hi & Hn & Hmsg). rewrite Hi in Hm.
      apply IH; [exact Hm'| |].
      * simpl. unfold Spinner.fire. rewrite Hm. simpl.
        destruct (Nat.eqb h' h); simpl; auto.
      * cbn [spinner_step]. unfold Spinner.fire. rewrite Hm. cbn [existsb].
        destruct (Nat.eqb h' h); cbn [orb]; [|exact Htext].
        unfold channel_text, append, emit in Htext |- *.
        cbn [events channel_text_rev]. rewrite Htext. cbn [begun_text].
        rewrite !string_app_assoc. now rewrite dots_snoc.
    + (* a firing while stopped *)
      destruct Ht as (Hi & Hn). rewrite Hi in Hm.
      assert (E : spinner_step s (Fire h') = s)
        by (simpl; unfold Spinner.fire; now rewrite Hm).
      rewrite E in *. apply IH; [exact Hm'| |exact Htext].
      simpl. auto.
Qed.

End SpinnerCycles.

(** What a spinner writes, from a stopped state on, is fixed by the calls:
    one cycle for each start that finds it stopped, made of the message,
    three dots, one dot for every firing of the timer of that cycle before
    its stop, and [done.] or [failed.] as the stop says; and, while it runs,
    the begun cycle.  A start while running, a stop while stopped and the
    firing of any other timer leave no trace. *)
Theorem spinner_output_is_cycles :
  forall calls s,
    timers_match s -> intervalId s = None ->
    let s' := fold_left spinner_step calls s in
    let r := cycles_of (next_timer s) None calls in
    channel_text s' =
    (channel_text s ++ String.concat "" (map cycle_text (fst r)) ++
     begun_text (snd r))%string /\
    (intervalId s' = None <-> snd r = None).
Proof.
  intros calls s Hm Hi. cbv zeta.
  apply spinner_follows_cycles; [exact Hm| |].
  - simpl. auto.
  - simpl. now rewrite string_app_nil.
Qed.

Lemma spinner_output_is_cycles_witness :
  channel_text
    (fold_left spinner_step
       [Start "Loading services"; Fire 0; Fire 0; Start "again"; Fire 7;
        Stop false; Stop true; Fire 0; Start "Next"; Fire 1]
       (mkSession None "" [] 0 [] [] [])) =
  "Loading services.....failed.Next....".
Proof.
  exact (proj1 (spinner_output_is_cycles
                  [Start "Loading services"; Fire 0; Fire 0; Start "again";
                   Fire 7; Stop false; Stop true; Fire 0; Start "Next"; Fire 1]
                  (mkSession None "" [] 0 [] [] []) eq_refl eq_refl)).
Defined.

(** * The command handler *)

(** ** A run without the writes to the output channel *)

Section Erasure.

Lemma erase_emit e s :
  erase (emit e s) = if is_append e then erase s else emit e (erase s).
Proof. unfold erase, visible, emit. simpl. now destruct (is_append e). Qed.

Lemma erase_append t s : erase (append t s) = erase s.
Proof. reflexivity. Qed.

Lemma erase_appendLine t s : erase (appendLine t s) = erase s.
Proof. reflexivity. Qed.

Lemma erase_start msg s : erase (Spinner.start msg s) = start_erased (erase s).
Proof.
  unfold Spinner.start, start_erased. simpl.
  now destruct (intervalId s).
Qed.

Lemma erase_stop success s :
  erase (Spinner.stop success s) = stop_erased (erase s).
Proof.
  unfold Spinner.stop, stop_erased. simpl.
  now destruct (intervalId s).
Qed.

Lemma erase_fire h s : erase (Spinner.fire h s) = erase s.
Proof. unfold Spinner.fire. now destruct (existsb _ _). Qed.

Lemma live_timers_fire h s : live_timers (Spinner.fire h s) = live_timers s.
Proof. unfold Spinner.fire. now destruct (existsb _ _). Qed.

Lemma erase_fire_all hs : forall s, erase (fire_all hs s) = erase s.
Proof.
  induction hs as [|h hs IH]; intros s; simpl; [reflexivity|].
  now rewrite IH, erase_fire.
Qed.

Lemma erase_await n : forall s, erase (await n s) = erase s.
Proof.
  induction n as [|n IH]; intros s; simpl; [reflexivity|].
  now rewrite IH, erase_fire_all.
Qed.

Lemma erase_open_terminal name s :
  erase (open_terminal name s) = open_terminal name (erase s).
Proof. reflexivity. Qed.

Lemma erase_open_channel name s :
  erase (open_channel name s) = open_channel name (erase s).
Proof. reflexivity. Qed.

Lemma sent_rev_visible evs :
  sent_rev (filter (fun e => negb (is_append e)) evs) = sent_rev evs.
Proof.
  induction evs as [|e evs IH]; simpl; [reflexivity|].
  destruct e; simpl; now rewrite ?IH.
Qed.

Lemma sent_erase s : sent (erase s) = sent s.
Proof. apply sent_rev_visible. Qed.

Lemma messages_erase s : messages (erase s) = messages s.
Proof.
  unfold messages, erase, visible. simpl.
  induction (events s) as [|e evs IH]; simpl; [reflexivity|].
  destruct e; simpl; now rewrite ?IH.
Qed.

Lemma erase_emit_visible e s :
  is_append e = false -> erase (emit e s) = emit e (erase s).
Proof. intros H. now rewrite erase_emit, H. Qed.

Lemma sent_visible s : sent_rev (visible s) = sent s.
Proof. apply sent_rev_visible. Qed.

Lemma messages_visible s : filter is_message (visible s) = messages s.
Proof. apply (messages_erase s). Qed.

Lemma or_else_truthy x d : truthy d = true -> truthy (or_else x d) = true.
Proof.
  intros Hd. unfold or_else. destruct x as [v|]; [|exact Hd].
  destruct (truthy v) eqn:E; [exact E|exact Hd].
Qed.

End Erasure.

Section Runs.

Lemma binding_namespace podsData n m s e d :
  getServicesMap podsData (Some n) = Returned m ->
  lookup m s e = Some d ->
  namespace_of d = Some n.
Proof.
  intros H Hl.
  destruct (binding_from_line _ _ _ _ _ _ H Hl) as (line & _ & Hb).
  now apply line_binding_inv in Hb
    as (nameColumn & modifiedName & _ & _ & _ & _ & _ & _ & Hns).
Qed.

(** [namespace || serviceDetails.namespace] (line 157) is the namespace
    stored with the binding, whether a namespace was entered or not. *)
Lemma serviceNamespace_is_stored podsData namespace m s e d :
  getServicesMap podsData (or_null namespace) = Returned m ->
  lookup m s e = Some d ->
  (if is_truthy namespace then namespace else namespace_of d) = namespace_of d.
Proof.
  unfold or_null. destruct (is_truthy namespace) eqn:E; [|reflexivity].
  destruct namespace as [n|]; [|discriminate E].
  intros H Hl. symmetry. exact (binding_namespace _ _ _ _ _ _ H Hl).
Qed.

Lemma fire_all_idle s : live_timers s = [] -> fire_all (live_timers s) s = s.
Proof. now intros ->. Qed.

Lemma await_idle n : forall s, live_timers s = [] -> await n s = s.
Proof.
  induction n as [|n IH]; intros s H; simpl; [reflexivity|].
  rewrite (fire_all_idle _ H). now apply IH.
Qed.

Lemma repeat_snoc (x : event) n l : repeat x n ++ x :: l = x :: repeat x n ++ l.
Proof. induction n as [|n IH]; simpl; [reflexivity|now rewrite IH]. Qed.

(** While one timer is set, waiting [n] firings writes [n] dots and changes
    nothing else. *)
Lemma await_running n :
  forall s h,
    live_timers s = [h] ->
    await n s =
    mkSession (intervalId s) (message s) (live_timers s) (next_timer s)
      (repeat (Append ".") n ++ events s) (terminals s) (outputChannels s).
Proof.
  induction n as [|n IH]; intros s h H; simpl.
  - now destruct s.
  - rewrite H. simpl. unfold Spinner.fire. rewrite H. simpl.
    rewrite Nat.eqb_refl. simpl.
    rewrite (IH (append "." s) h H). simpl. now rewrite repeat_snoc, H.
Qed.

Lemma channel_text_dots n evs :
  channel_text_rev (repeat (Append ".") n ++ evs) =
  (channel_text_rev evs ++ dots n)%string.
Proof.
  induction n as [|n IH]; simpl.
  - now rewrite string_app_nil.
  - rewrite IH, string_app_assoc. f_equal. apply dots_snoc.
Qed.

Lemma string_app_inv_head (a b c : string) :
  (a ++ b)%string = (a ++ c)%string -> b = c.
Proof. induction a as [|x a IH]; simpl; [auto|]. intros [= H]. auto. Qed.

Lemma startsWith_app p s :
  startsWith p s = true <-> exists rest, s = (p ++ rest)%string.
Proof.
  rewrite strip_prefix_startsWith. split.
  - destruct (strip_prefix p s) as [rest|] eqn:E; [|discriminate].
    intros _. exists rest. now apply strip_prefix_Some.
  - intros [rest H]. apply strip_prefix_Some in H. now rewrite H.
Qed.

End Runs.

Ltac erase_run :=
  cbn [fst snd];
  repeat first
    [ rewrite erase_await | rewrite erase_appendLine | rewrite erase_append
    | rewrite erase_start | rewrite erase_stop | rewrite erase_open_terminal
    | rewrite erase_open_channel | rewrite erase_emit_visible by reflexivity ].

Ltac skeleton :=
  cbn [intervalId live_timers next_timer events terminals outputChannels message
       emit open_terminal open_channel Spinner.create start_erased stop_erased
       erase sent sent_rev messages filter is_message app].

(** The runs of the handler, one goal for each way through it. *)
Ltac walk a :=
  unfold after_command, start_command, try_block; cbv zeta;
  destruct (execPromise (answer (pods_exec a))) as [podsData|f] eqn:Epods;
  [ unfold select_stage;
    destruct (getServicesMap podsData (or_null (answer (namespace_box a))))
      as [m|e|] eqn:Emap;
    [ cbv zeta;
      destruct (List.length (listServiceNames m) =? 0)%nat eqn:Elen;
      [ | destruct (negb (is_truthy (answer (service_pick a)))) eqn:Esvc;
          [ | destruct (answer (environment_pick a)) as [environment|] eqn:Eenv;
              [ destruct (lookup m (js_text (answer (service_pick a))) environment)
                  as [d|] eqn:Elook;
                [ unfold forward_stage; cbv zeta;
                  destruct (execPromise (answer (port_exec a))) as [out|f] eqn:Eport;
                  unfold logs_stage; cbv zeta;
                  destruct (is_yes (answer (logs_pick a))) eqn:Eyes
                | ]
              | ] ] ]
    | | ]
  | ].

(** ** What a run leaves behind *)

(** However a run of the command ends (a failed or refused command, a
    cancelled prompt, an exception of [getServicesMap], success), its spinner
    is stopped and no interval timer is left set. *)
Theorem command_leaves_no_timer :
  forall a s0,
    live_timers s0 = [] ->
    intervalId (after_command a s0) = None /\
    live_timers (after_command a s0) = [].
Proof.
  intros a s0 H0.
  change (intervalId (erase (after_command a s0)) = None /\
          live_timers (erase (after_command a s0)) = []).
  walk a.
  all: erase_run; skeleton; rewrite ?H0; cbn [Spinner.clear filter];
    rewrite ?Nat.eqb_refl; cbn [negb]; auto.
Qed.

Lemma command_leaves_no_timer_witness :
  intervalId
    (after_command
       (mkAnswers "10:00:00" (mkAwaited 0 None)
          (mkAwaited 3 (mkExec None ("NAME" ++ nl ++ "dev-web-11-aa") ""))
          (mkAwaited 0 (Some "web")) (mkAwaited 0 (Some dev))
          (mkAwaited 0 None) (mkAwaited 2 (mkExec (Some "Error: x") "" ""))
          (mkAwaited 0 (Some "8080")) (mkAwaited 0 (Some "Yes")))
       (mkSession None "" [] 0 [] [] [])) = None.
Proof.
  apply (command_leaves_no_timer
           (mkAnswers "10:00:00" (mkAwaited 0 None)
              (mkAwaited 3 (mkExec None ("NAME" ++ nl ++ "dev-web-11-aa") ""))
              (mkAwaited 0 (Some "web")) (mkAwaited 0 (Some dev))
              (mkAwaited 0 None) (mkAwaited 2 (mkExec (Some "Error: x") "" ""))
              (mkAwaited 0 (Some "8080")) (mkAwaited 0 (Some "Yes")))
           (mkSession None "" [] 0 [] [] [])).
  reflexivity.
Defined.

(** No exception leaves the handler, and a run shows the user at most one
    message: an information, an error text or a caught error. *)
Theorem command_shows_one_message :
  forall a s0,
    (forall error, fst (start_command a s0) <> Throw error) /\
    exists shown,
      messages (after_command a s0) = shown ++ messages s0 /\
      List.length shown <= 1.
Proof.
  intros a s0. rewrite <- (messages_erase (after_command a s0)). split.
  - intros error. walk a; cbn [fst]; discriminate.
  - walk a.
    all: erase_run; skeleton; rewrite messages_visible;
      first [ exists []; split; [reflexivity|simpl; lia]
            | eexists [_]; split; [reflexivity|simpl; lia] ].
Qed.

Section SentCommands.

Lemma lookup_listed m s e d :
  lookup m s e = Some d -> (List.length (listServiceNames m) =? 0)%nat = false.
Proof.
  intros H. apply Nat.eqb_neq. intros E.
  pose proof (CodeUnitSort.Permuted_sort (map_keys m)) as P.
  apply Permutation_length in P. fold (listServiceNames m) in P.
  rewrite E in P. unfold map_keys in P. rewrite length_map in P.
  destruct m; [discriminate H|discriminate P].
Qed.

Lemma port_is_not_empty x : or_else x "3000" <> EmptyString.
Proof.
  intros E. pose proof (or_else_truthy x "3000" eq_refl) as T.
  rewrite E in T. discriminate T.
Qed.

(** A rejected pod listing: nothing is sent. *)
Lemma sent_when_listing_fails a s0 f :
  execPromise (answer (pods_exec a)) = inr f ->
  sent (after_command a s0) = sent s0.
Proof.
  intros Hexec. rewrite <- (sent_erase (after_command a s0)).
  unfold after_command, start_command, try_block. cbv zeta. rewrite Hexec.
  erase_run. skeleton. apply sent_visible.
Qed.

(** An exception of [getServicesMap]: nothing is sent. *)
Lemma sent_when_catalog_throws a s0 podsData e :
  execPromise (answer (pods_exec a)) = inl podsData ->
  getServicesMap podsData (or_null (answer (namespace_box a))) = Threw e ->
  sent (after_command a s0) = sent s0.
Proof.
  intros Hexec Hmap. rewrite <- (sent_erase (after_command a s0)).
  unfold after_command, start_command, try_block. cbv zeta. rewrite Hexec.
  unfold select_stage. rewrite Hmap.
  erase_run. skeleton. apply sent_visible.
Qed.

(** A catalog, but no binding chosen: nothing is sent. *)
Lemma sent_without_binding a s0 podsData m :
  execPromise (answer (pods_exec a)) = inl podsData ->
  getServicesMap podsData (or_null (answer (namespace_box a))) = Returned m ->
  (is_truthy (answer (service_pick a)) = false \/
   forall environment,
     answer (environment_pick a) = Some environment ->
     lookup m (js_text (answer (service_pick a))) environment = None) ->
  sent (after_command a s0) = sent s0.
Proof.
  intros Hexec Hmap Hno. rewrite <- (sent_erase (after_command a s0)).
  unfold after_command, start_command, try_block. cbv zeta. rewrite Hexec.
  unfold select_stage. rewrite Hmap. cbv zeta.
  destruct (List.length (listServiceNames m) =? 0)%nat;
    [erase_run; skeleton; apply sent_visible|].
  destruct (is_truthy (answer (service_pick a))) eqn:Et; cbn [negb];
    [|erase_run; skeleton; apply sent_visible].
  destruct Hno as [Hno|Hno]; [discriminate Hno|].
  destruct (answer (environment_pick a)) as [environment|];
    [|erase_run; skeleton; apply sent_visible].
  rewrite (Hno environment eq_refl).
  erase_run. skeleton. apply sent_visible.
Qed.

(** A chosen binding: the run goes to its end and sends the commands. *)
Lemma sent_with_binding a s0 podsData m environment d :
  execPromise (answer (pods_exec a)) = inl podsData ->
  getServicesMap podsData (or_null (answer (namespace_box a))) = Returned m ->
  is_truthy (answer (service_pick a)) = true ->
  answer (environment_pick a) = Some environment ->
  lookup m (js_text (answer (service_pick a))) environment = Some d ->
  fst (start_command a s0) = Next tt /\
  sent (after_command a s0) =
  sent s0 ++
  portForwardCommand environment (namespace_of d)
    (js_text (answer (service_pick a))) (id d)
    (or_else (answer (localPort_box a)) "3000")
    (or_else (answer (servicePort_box a)) "3000") ::
  (if is_yes (answer (logs_pick a))
   then [logsCommand environment (namespace_of d)
           (js_text (answer (service_pick a))) (id d)]
   else []).
Proof.
  intros Hexec Hmap Ht Henv Hlook.
  rewrite <- (sent_erase (after_command a s0)).
  unfold after_command, start_command, try_block. cbv zeta. rewrite Hexec.
  unfold select_stage. rewrite Hmap. cbv zeta.
  rewrite (lookup_listed _ _ _ _ Hlook), Ht. cbn [negb].
  rewrite Henv, Hlook. unfold forward_stage. cbv zeta.
  rewrite (serviceNamespace_is_stored _ _ _ _ _ _ Hmap Hlook).
  destruct (execPromise (answer (port_exec a))) as [out|f];
    unfold logs_stage; cbv zeta;
    destruct (is_yes (answer (logs_pick a)));
    (split; [reflexivity|]);
    erase_run; skeleton; rewrite sent_visible, <- ?app_assoc; reflexivity.
Qed.

End SentCommands.

(** What a run sends to terminals, whichever way the pod listing and
    [getServicesMap] end.  Nothing when the listing is rejected or
    [getServicesMap] throws.  With a catalog, nothing when no binding is
    chosen: the service prompt is cancelled or answered with the empty name,
    the environment prompt is cancelled, or the service has no binding in
    the chosen environment.  When a binding is chosen, the run goes to its
    end, whether the detection of the service port succeeds or fails: the
    port-forward command is sent, for the pod named by environment, stored
    namespace, service and stored id, with two ports that are never empty;
    the logs command follows exactly when the answer to the last question
    is [Yes]. *)
Theorem terminal_commands :
  forall a s0,
    let service := js_text (answer (service_pick a)) in
    let localPort := or_else (answer (localPort_box a)) "3000" in
    let servicePort := or_else (answer (servicePort_box a)) "3000" in
    (forall f,
       execPromise (answer (pods_exec a)) = inr f ->
       sent (after_command a s0) = sent s0) /\
    (forall podsData e,
       execPromise (answer (pods_exec a)) = inl podsData ->
       getServicesMap podsData (or_null (answer (namespace_box a))) = Threw e ->
       sent (after_command a s0) = sent s0) /\
    (forall podsData m,
       execPromise (answer (pods_exec a)) = inl podsData ->
       getServicesMap podsData (or_null (answer (namespace_box a)))
       = Returned m ->
       (is_truthy (answer (service_pick a)) = false \/
        forall environment,
          answer (environment_pick a) = Some environment ->
          lookup m service environment = None) ->
       sent (after_command a s0) = sent s0) /\
    (forall podsData m environment d,
       execPromise (answer (pods_exec a)) = inl podsData ->
       getServicesMap podsData (or_null (answer (namespace_box a)))
       = Returned m ->
       is_truthy (answer (service_pick a)) = true ->
       answer (environment_pick a) = Some environment ->
       lookup m service environment = Some d ->
       fst (start_command a s0) = Next tt /\
       localPort <> EmptyString /\ servicePort <> EmptyString /\
       sent (after_command a s0) =
       sent s0 ++
       portForwardCommand environment (namespace_of d) service (id d)
         localPort servicePort ::
       (if is_yes (answer (logs_pick a))
        then [logsCommand environment (namespace_of d) service (id d)]
        else [])).
Proof.
  intros a s0. cbv zeta. repeat split.
  - apply sent_when_listing_fails.
  - apply sent_when_catalog_throws.
  - apply sent_without_binding.
  - now apply (sent_with_binding a s0 podsData m environment d).
  - apply port_is_not_empty.
  - apply port_is_not_empty.
  - now apply (sent_with_binding a s0 podsData m environment d).
Qed.

(** A run in the namespace [team-a] where the detection of the service port
    fails and the logs are asked for. *)
Lemma terminal_commands_witness :
  sent
    (after_command
       (mkAnswers "10:00:00" (mkAwaited 0 (Some "team-a"))
          (mkAwaited 3 (mkExec None ("NAME" ++ nl ++ "dev-team-a-web-11-aa") ""))
          (mkAwaited 0 (Some "web")) (mkAwaited 0 (Some dev))
          (mkAwaited 0 None) (mkAwaited 2 (mkExec (Some "Error: x") "" ""))
          (mkAwaited 0 (Some "8080")) (mkAwaited 0 (Some "Yes")))
       (mkSession None "" [] 0 [] [] [])) =
  ["kubectl port-forward --namespace team-a dev-team-a-web-11-aa 3000:8080";
   "kubectl logs --namespace team-a dev-team-a-web-11-aa -f"].
Proof.
  exact (proj2 (proj2 (proj2
    (proj2 (proj2 (proj2
      (terminal_commands
         (mkAnswers "10:00:00" (mkAwaited 0 (Some "team-a"))
            (mkAwaited 3
               (mkExec None ("NAME" ++ nl ++ "dev-team-a-web-11-aa") ""))
            (mkAwaited 0 (Some "web")) (mkAwaited 0 (Some dev))
            (mkAwaited 0 None) (mkAwaited 2 (mkExec (Some "Error: x") "" ""))
            (mkAwaited 0 (Some "8080")) (mkAwaited 0 (Some "Yes")))
         (mkSession None "" [] 0 [] [] []))))
      ("NAME" ++ nl ++ "dev-team-a-web-11-aa")%string
      [("web", mkEnvs (Some (mkDetails "11-aa" (Some "team-a"))) None None)]
      dev (mkDetails "11-aa" (Some "team-a"))
      eq_refl eq_refl eq_refl eq_refl eq_refl)))).
Defined.

(** The two arrays of [activate] only grow: a run adds its one output
    channel, and one terminal for each command it sends, two at most;
    nothing is ever taken out. *)
Theorem command_opens_channel_and_terminals :
  forall a s0,
    outputChannels (after_command a s0) =
    outputChannels s0 ++ ["K8s Service Loader - " ++ clock a]%string /\
    exists opened texts,
      terminals (after_command a s0) = terminals s0 ++ opened /\
      sent (after_command a s0) = sent s0 ++ texts /\
      List.length opened = List.length texts /\
      List.length opened <= 2.
Proof.
  intros a s0.
  rewrite <- (sent_erase (after_command a s0)).
  change (outputChannels (erase (after_command a s0)) =
          outputChannels s0 ++ ["K8s Service Loader - " ++ clock a]%string /\
          exists opened texts,
            terminals (erase (after_command a s0)) = terminals s0 ++ opened /\
            sent (erase (after_command a s0)) = sent s0 ++ texts /\
            List.length opened = List.length texts /\
            List.length opened <= 2).
  walk a.
  all: erase_run; skeleton; rewrite sent_visible; (split; [reflexivity|]);
    first
      [ exists [], []; rewrite !app_nil_r; repeat split; simpl; lia
      | eexists [_], [_]; rewrite <- ?app_assoc; repeat split; simpl; lia
      | eexists [_; _], [_; _]; rewrite <- ?app_assoc; repeat split; simpl; lia ].
Qed.

(** ** The pod that the commands name *)

(** The commands of lines 188 and 213 name the pod by environment,
    namespace, service and id.  For a binding made from a pod name, with a
    namespace without pattern syntax, that is the pod name of the table
    exactly when the pod name carries its namespace right after the
    environment prefix; otherwise the commands name a pod that is not the
    one listed. *)
Theorem forwarded_pod_is_listed_pod :
  forall namespaceIndex nameIndex namespace line nameColumn s e d n,
    at_index (split_ws line) nameIndex = Some nameColumn ->
    line_binding namespaceIndex nameIndex namespace line = Some (s, e, d) ->
    namespace_of d = Some n ->
    plain n = true -> n <> EmptyString ->
    pod_name e (Some n) s (id d) = nameColumn <->
    startsWith (env_tag e ++ "-" ++ n ++ "-") nameColumn = true.
Proof.
  intros namespaceIndex nameIndex namespace line nameColumn s e d n
    Hname Hb Hn Hplain Hne.
  apply line_binding_inv in Hb
    as (nameColumn' & modifiedName & Hname' & He & Hstrip & Hparts & Hs & Hid
        & Hns).
  rewrite Hname in Hname'. injection Hname' as <-.
  rewrite Hn in Hns. rewrite <- Hns in Hstrip.
  rewrite (strip_namespace_plain _ _ Hplain Hne) in Hstrip.
  injection Hstrip as Hstrip.
  pose proof (env_prefix_strip _ _ He) as Hsplit.
  destruct (name_and_id _ Hparts) as [Hjoin _].
  rewrite <- Hs, <- Hid in Hjoin.
  unfold pod_name. simpl js_text. split.
  - intros <-. apply startsWith_app. exists (s ++ "-" ++ id d)%string.
    now rewrite !string_app_assoc.
  - intros H. apply startsWith_app in H as [tail H].
    rewrite !string_app_assoc in H.
    rewrite Hsplit in H at 1.
    apply string_app_inv_head in H. simpl in H. injection H as H.
    unfold spec_strip_namespace in Hstrip.
    assert (Hp : strip_prefix (n ++ "-") (replace_first env_prefix_re nameColumn)
                 = Some tail).
    { apply strip_prefix_Some. rewrite H. now rewrite string_app_assoc. }
    rewrite Hp in Hstrip. subst tail.
    rewrite Hsplit at 1. rewrite H, <- Hjoin. reflexivity.
Qed.

Lemma forwarded_pod_is_listed_pod_witness :
  pod_name dev (Some "team-a") "checkout" "7f9c4d-x2k1p" =
  "dev-team-a-checkout-7f9c4d-x2k1p".
Proof.
  apply (forwarded_pod_is_listed_pod (Some 0) (Some 1) None
           "team-a dev-team-a-checkout-7f9c4d-x2k1p"
           "dev-team-a-checkout-7f9c4d-x2k1p" "checkout" dev
           (mkDetails "7f9c4d-x2k1p" (Some "team-a")) "team-a");
    try reflexivity.
  discriminate.
Defined.

(** ** Runs that end early *)

(** Anything that the pod listing writes to its error stream makes the run
    fail, even when the command succeeded and printed the table: the spinner
    ends with [failed.], the caught error is shown, and nothing else is asked
    or started. *)
Theorem stderr_output_aborts_the_run :
  forall a s0,
    live_timers s0 = [] ->
    error (answer (pods_exec a)) = None ->
    truthy (stderr (answer (pods_exec a))) = true ->
    visible (after_command a s0) =
    ShowCaughtError (Rejected (StderrOutput (stderr (answer (pods_exec a))))) ::
    Exec (getPodsCommand (answer (namespace_box a))) ::
    ShowInputBox "Enter namespace (optional)" "Leave empty for all namespaces"
      None ::
    ShowOutputChannel ::
    CreateOutputChannel ("K8s Service Loader - " ++ clock a) :: visible s0 /\
    channel_text (after_command a s0) =
    (channel_text s0 ++
     ("Running: " ++ getPodsCommand (answer (namespace_box a)) ++ nl) ++
     "Loading services..." ++ dots (fired (pods_exec a)) ++ "failed.")%string.
Proof.
  intros a s0 H0 Herr Hstderr.
  assert (E : execPromise (answer (pods_exec a)) =
              inr (StderrOutput (stderr (answer (pods_exec a))))).
  { unfold execPromise. now rewrite Herr, Hstderr. }
  split.
  - change (events (erase (after_command a s0)) =
            ShowCaughtError
              (Rejected (StderrOutput (stderr (answer (pods_exec a))))) ::
            Exec (getPodsCommand (answer (namespace_box a))) ::
            ShowInputBox "Enter namespace (optional)"
              "Leave empty for all namespaces" None ::
            ShowOutputChannel ::
            CreateOutputChannel ("K8s Service Loader - " ++ clock a) ::
            visible s0).
    unfold after_command, start_command, try_block. cbv zeta. rewrite E.
    erase_run. skeleton. reflexivity.
  - unfold after_command, start_command, try_block. cbv zeta. rewrite E.
    cbn [fst snd].
    rewrite (await_idle (fired (namespace_box a))) by (simpl; exact H0).
    unfold Spinner.start at 1.
    cbn [intervalId open_channel emit appendLine Spinner.create next_timer
         live_timers message events terminals outputChannels].
    rewrite H0.
    erewrite (await_running (fired (pods_exec a))) by reflexivity.
    unfold channel_text, Spinner.stop.
    cbn [intervalId emit events channel_text_rev].
    rewrite channel_text_dots. cbn [channel_text_rev].
    now rewrite !string_app_assoc.
Qed.

Lemma stderr_output_aborts_the_run_witness :
  channel_text
    (after_command
       (mkAnswers "10:00:00" (mkAwaited 0 (Some "team-a"))
          (mkAwaited 3
             (mkExec None ("NAME" ++ nl ++ "dev-team-a-web-11-aa")
                "Warning: deprecated flag"))
          (mkAwaited 0 None) (mkAwaited 0 None) (mkAwaited 0 None)
          (mkAwaited 0 (mkExec None "" "")) (mkAwaited 0 None)
          (mkAwaited 0 None))
       (mkSession None "" [] 0 [] [] [])) =
  ("Running: kubectl get pods --namespace team-a" ++ nl ++
   "Loading services......failed.")%string.
Proof.
  apply (proj2 (stderr_output_aborts_the_run
                  (mkAnswers "10:00:00" (mkAwaited 0 (Some "team-a"))
                     (mkAwaited 3
                        (mkExec None ("NAME" ++ nl ++ "dev-team-a-web-11-aa")
                           "Warning: deprecated flag"))
                     (mkAwaited 0 None) (mkAwaited 0 None) (mkAwaited 0 None)
                     (mkAwaited 0 (mkExec None "" "")) (mkAwaited 0 None)
                     (mkAwaited 0 None))
                  (mkSession None "" [] 0 [] [] [])
                  eq_refl eq_refl eq_refl)).
Defined.

(** The namespace box is the one prompt whose cancelling does not end the
    run: cancelled or left empty, the run is the same, and it lists the pods
    of all namespaces. *)
Theorem cancelled_namespace_means_all_namespaces :
  forall a s0,
    start_command (with_namespace None a) s0 =
    start_command (with_namespace (Some EmptyString) a) s0 /\
    In (Exec "kubectl get pods --all-namespaces")
      (visible (after_command (with_namespace None a) s0)).
Proof.
  intros a s0. split; [reflexivity|].
  change (In (Exec "kubectl get pods --all-namespaces")
            (events (erase (after_command (with_namespace None a) s0)))).
  walk (with_namespace None a).
  all: erase_run; skeleton; simpl; tauto.
Qed.

(** A pod name such as [dev--11-aa] gives a service whose name is the empty
    string.  It is listed, but it cannot be chosen: the empty answer reads as
    a cancelled prompt (line 112), and the run ends with nothing sent and no
    message. *)
Theorem empty_service_name_cannot_be_chosen :
  (exists m,
     getServicesMap ("NAME" ++ nl ++ "dev--11-aa") None = Returned m /\
     listServiceNames m = [EmptyString]) /\
  forall a s0 podsData m,
    execPromise (answer (pods_exec a)) = inl podsData ->
    getServicesMap podsData (or_null (answer (namespace_box a))) = Returned m ->
    m <> [] ->
    answer (service_pick a) = Some EmptyString ->
    fst (start_command a s0) = Return /\
    sent (after_command a s0) = sent s0 /\
    messages (after_command a s0) = messages s0.
Proof.
  split; [eexists; split; reflexivity|].
  intros a s0 podsData m Hexec Hmap Hm Hpick.
  assert (Hlen : (List.length (listServiceNames m) =? 0)%nat = false).
  { apply Nat.eqb_neq. intros E. apply Hm.
    pose proof (CodeUnitSort.Permuted_sort (map_keys m)) as P.
    apply Permutation_length in P. fold (listServiceNames m) in P.
    rewrite E in P. unfold map_keys in P. rewrite length_map in P.
    now destruct m. }
  rewrite <- (sent_erase (after_command a s0)).
  rewrite <- (messages_erase (after_command a s0)).
  unfold after_command, start_command, try_block. cbv zeta.
  rewrite Hexec. unfold select_stage. rewrite Hmap. cbv zeta.
  rewrite Hlen, Hpick. cbn [is_truthy truthy String.eqb negb fst snd].
  repeat split.
  - erase_run. skeleton. apply sent_visible.
  - erase_run. skeleton. apply messages_visible.
Qed.

Lemma empty_service_name_cannot_be_chosen_witness :
  fst (start_command
         (mkAnswers "10:00:00" (mkAwaited 0 None)
            (mkAwaited 1 (mkExec None ("NAME" ++ nl ++ "dev--11-aa") ""))
            (mkAwaited 0 (Some "")) (mkAwaited 0 (Some dev))
            (mkAwaited 0 None) (mkAwaited 0 (mkExec None "80" ""))
            (mkAwaited 0 None) (mkAwaited 0 None))
         (mkSession None "" [] 0 [] [] [])) = Return.
Proof.
  apply (proj2 empty_service_name_cannot_be_chosen
           (mkAnswers "10:00:00" (mkAwaited 0 None)
              (mkAwaited 1 (mkExec None ("NAME" ++ nl ++ "dev--11-aa") ""))
              (mkAwaited 0 (Some "")) (mkAwaited 0 (Some dev))
              (mkAwaited 0 None) (mkAwaited 0 (mkExec None "80" ""))
              (mkAwaited 0 None) (mkAwaited 0 None))
           (mkSession None "" [] 0 [] [] [])
           ("NAME" ++ nl ++ "dev--11-aa")%string
           [("", mkEnvs (Some (mkDetails "11-aa" None)) None None)]);
    try reflexivity.
  discriminate.
Defined.
